(** * jsleep: jittered sleep

    A shallow embedding of [jsleep.go]: the duration and percent parsers
    ([parseDuration], [parsePercent]), the interval resolver ([parseArgs]) and
    the sampler ([chooseSleepDuration], [cryptoRandInt64]), together with the
    parts of Go's standard library the program calls ([strings], [unicode],
    [strconv], [time], [flag], [math], [encoding/binary]).

    Conventions.
    - A Go [string] is a sequence of bytes: Rocq's [string] of 8-bit [ascii].
    - [int64], [uint64] and [time.Duration] are [Z]; every operation that can
      wrap in Go is written with its wrap-around ([Int64.wrap], [Uint64.wrap]).
    - [float64] is Rocq's primitive binary64 [float].
    - A Go function returning [(T, error)] returns [result T]. *)

From Stdlib Require Import ZArith List String Ascii Bool Lia Floats.
Import ListNotations.

Local Open Scope string_scope.
Local Open Scope Z_scope.

(** ** Errors and results *)

(** One constructor per place where an error value is built, in the program
    and in the library functions it calls.  The comment gives the Go message. *)
Inductive error : Type :=
  (* package flag *)
  | ErrHelp                                 (* flag: help requested *)
  | ErrBadFlagSyntax (s : string)           (* bad flag syntax: %s *)
  | ErrFlagNotDefined (name : string)       (* flag provided but not defined: -%s *)
  | ErrFlagNeedsArgument (name : string)    (* flag needs an argument: -%s *)
  | ErrInvalidBoolean (value name : string) (* invalid boolean value %q for -%s *)
  (* package strconv *)
  | ErrSyntax                               (* invalid syntax *)
  | ErrRange                                (* value out of range *)
  (* package time *)
  | ErrTimeInvalidDuration (orig : string)  (* time: invalid duration %q *)
  | ErrTimeMissingUnit (orig : string)      (* time: missing unit in duration %q *)
  | ErrTimeUnknownUnit (u orig : string)    (* time: unknown unit %q in duration %q *)
  (* package crypto/rand *)
  | ErrRandRead                             (* rand.Read returned an error *)
  (* parseArgs *)
  | ErrTooManyPositional      (* too many positional arguments *)
  | ErrJitterWithRange        (* cannot use --jitter with --range *)
  | ErrJitterTwice            (* cannot specify jitter both positionally and with --jitter *)
  | ErrPositionalWithRange    (* cannot use positional jitter with --range *)
  | ErrMaxBelowMin            (* max must be greater than or equal to min *)
  | ErrRangeRequiresBase      (* --range requires a base duration *)
  | ErrJitterOverflow         (* jitter results overflow time.Duration *)
  | ErrMissingDuration        (* missing required duration *)
  | ErrEmptyInterval          (* defined interval is empty after clamping *)
  (* parseDuration *)
  | ErrEmptyDuration                        (* empty duration *)
  | ErrInvalidDuration (s : string)         (* invalid duration: %s *)
  | ErrDurationOutOfRange (s : string)      (* duration out of range: %s *)
  (* parsePercent *)
  | ErrPercentSuffix (s : string)           (* percent must end with %%: %s *)
  | ErrInvalidPercent (s : string)          (* invalid percent: %s *)
  | ErrNegativeJitter                       (* jitter cannot be negative *)
  (* chooseSleepDuration, cryptoRandInt64 *)
  | ErrLowAboveHigh           (* low must be less than or equal to high *)
  | ErrNotPositive            (* n must be positive *)
  | ErrRandExhausted.         (* random number generation failed after too many attempts *)

Inductive result (A : Type) : Type :=
  | Ok (a : A)
  | Err (e : error).

Arguments Ok {A} a.
Arguments Err {A} e.

Definition bind {A B : Type} (r : result A) (k : A -> result B) : result B :=
  match r with
  | Ok a => k a
  | Err e => Err e
  end.

Notation "'let*' x ':=' r 'in' k" := (bind r (fun x => k))
  (at level 10, x pattern, r at level 100, k at level 200).

Definition isOk {A : Type} (r : result A) : bool :=
  match r with Ok _ => true | Err _ => false end.

(** ** Machine integers *)

Module Int64.
Definition MinInt64 : Z := - 2 ^ 63.
Definition MaxInt64 : Z := 2 ^ 63 - 1.

Definition in_range (z : Z) : Prop := MinInt64 <= z <= MaxInt64.

(** Two's complement wrap-around of a mathematical integer to [int64]. *)
Definition wrap (z : Z) : Z := (z + 2 ^ 63) mod 2 ^ 64 - 2 ^ 63.

Definition add (a b : Z) : Z := wrap (a + b).
Definition sub (a b : Z) : Z := wrap (a - b).
Definition neg (a : Z) : Z := wrap (- a).
End Int64.

Module Uint64.
Definition MaxUint64 : Z := 2 ^ 64 - 1.

Definition wrap (z : Z) : Z := z mod 2 ^ 64.

Definition add (a b : Z) : Z := wrap (a + b).
Definition sub (a b : Z) : Z := wrap (a - b).
Definition mul (a b : Z) : Z := wrap (a * b).
End Uint64.

(** ** float64 *)

Module Float64.
Local Open Scope float_scope.

(** Conversion of an integer to [float64], round to nearest even
    ([float64(x)] for an integer [x]). *)
Definition of_Z (z : Z) : float :=
  SF2Prim (binary_normalize prec emax z 0%Z false).

(** The integer part of a finite float, rounded toward zero; [None] for NaN
    and the infinities. *)
Definition trunc (x : float) : option Z :=
  match Prim2SF x with
  | S754_zero _ => Some 0%Z
  | S754_finite s m e =>
      let a := if (0 <=? e)%Z then (Zpos m * 2 ^ e)%Z
               else (Zpos m / 2 ^ (- e))%Z in
      Some (if s then (- a)%Z else a)
  | S754_infinity _ | S754_nan => None
  end.

(** [int64(x)] for a float [x].  The language leaves the result
    implementation-dependent when the truncated value is not representable;
    the value modelled is the one of amd64 (CVTTSD2SQ): [MinInt64]. *)
Definition to_int64 (x : float) : Z :=
  match trunc x with
  | Some z => if (Int64.MinInt64 <=? z)%Z && (z <=? Int64.MaxInt64)%Z
              then z else Int64.MinInt64
  | None => Int64.MinInt64
  end.

(** [uint64(x)] for a float [x].  A value that is not representable gives an
    implementation-dependent result, taken to be 2^63; the one call, in
    [time.ParseDuration], has an argument below 3.6e12. *)
Definition to_uint64 (x : float) : Z :=
  match trunc x with
  | Some z => if (0 <=? z)%Z && (z <=? Uint64.MaxUint64)%Z
              then z else (2 ^ 63)%Z
  | None => (2 ^ 63)%Z
  end.

(** [math.IsNaN], [math.IsInf(x, 0)]. *)
Definition IsNaN (x : float) : bool := is_nan x.
Definition IsInf (x : float) : bool := is_infinity x.

(** [math.Round]: nearest integer, halves away from zero; ±0, ±Inf and NaN
    are returned unchanged. *)
Definition Round (x : float) : float :=
  match Prim2SF x with
  | S754_finite s m e =>
      if (0 <=? e)%Z then x
      else
        let d := (2 ^ (- e))%Z in
        let q := (Zpos m / d)%Z in
        let r := (Zpos m mod d)%Z in
        let a := if (d <=? 2 * r)%Z then (q + 1)%Z else q in
        if (a =? 0)%Z then (if s then neg_zero else zero)
        else of_Z (if s then (- a)%Z else a)
  | _ => x
  end.

(** The nearest float to the rational [(-1)^neg * p / q] with [q > 0],
    ties to even; an infinity when the rounded value overflows. *)
Definition of_ratio (neg : bool) (p q : Z) : float :=
  match p, q with
  | Zpos p', Zpos q' =>
      SF2Prim (SFdiv prec emax (S754_finite neg p' 0) (S754_finite false q' 0))
  | _, _ => if neg then neg_zero else zero
  end.
End Float64.

(** ** Bytes and strings *)

Definition byteVal (c : ascii) : Z := Z.of_N (N_of_ascii c).

(** ['0' <= c && c <= '9'] *)
Definition isDecimal (c : ascii) : bool :=
  (48 <=? byteVal c) && (byteVal c <=? 57).

(** [s[n:]] and [s[:n]] (for [n <= len(s)]). *)
Fixpoint drop (n : nat) (s : string) : string :=
  match n, s with
  | O, _ => s
  | S n', String _ s' => drop n' s'
  | S _, EmptyString => EmptyString
  end.

Fixpoint take (n : nat) (s : string) : string :=
  match n, s with
  | O, _ => EmptyString
  | S n', String c s' => String c (take n' s')
  | S _, EmptyString => EmptyString
  end.

(** [s[len(s)-1]] for a non-empty [s]. *)
Fixpoint lastByte (s : string) : ascii :=
  match s with
  | EmptyString => Ascii.zero
  | String c EmptyString => c
  | String _ s' => lastByte s'
  end.

Module strings.
(** [strings.HasSuffix]:
    [len(s) >= len(suffix) && s[len(s)-len(suffix):] == suffix]. *)
Definition HasSuffix (s suffix : string) : bool :=
  (length suffix <=? length s)%nat
  && String.eqb (drop (length s - length suffix) s) suffix.

(** [strings.TrimSuffix]. *)
Definition TrimSuffix (s suffix : string) : string :=
  if HasSuffix s suffix then take (length s - length suffix) s else s.
End strings.

Module unicode.
(** [unicode.IsDigit] on a rune obtained from one byte: below [MaxLatin1]
    the function is ['0' <= r && r <= '9']. *)
Definition IsDigit (r : ascii) : bool := isDecimal r.
End unicode.

(** ** Package strconv *)

Module strconv.
(** [lower(c)]: [c | ('x' - 'X')]. *)
Definition lower (c : ascii) : Z := Z.lor (byteVal c) 32.

Definition isHexLetter (c : ascii) : bool :=
  (97 <=? lower c) && (lower c <=? 102).

(** [strconv.ParseBool]. *)
Definition ParseBool (str : string) : result bool :=
  if String.eqb str "1" || String.eqb str "t" || String.eqb str "T"
     || String.eqb str "TRUE" || String.eqb str "true" || String.eqb str "True"
  then Ok true
  else if String.eqb str "0" || String.eqb str "f" || String.eqb str "F"
     || String.eqb str "FALSE" || String.eqb str "false" || String.eqb str "False"
  then Ok false
  else Err ErrSyntax.

(** [commonPrefixLenIgnoreCase]: only ['A'..'Z'] of [s] are lowered. *)
Fixpoint commonPrefixLenIgnoreCase (s prefix : string) : nat :=
  match s, prefix with
  | String c s', String p prefix' =>
      let c' := if (65 <=? byteVal c) && (byteVal c <=? 90)
                then byteVal c + 32 else byteVal c in
      if c' =? byteVal p then S (commonPrefixLenIgnoreCase s' prefix') else O
  | _, _ => O
  end.

(** [special]: the textual infinities and NaN.  Returns the value and the
    number of bytes consumed. *)
Definition specialInf (sign : bool) (nsign : nat) (s : string)
  : option (float * nat) :=
  let n := commonPrefixLenIgnoreCase s "infinity" in
  let n := if (3 <? n)%nat && (n <? 8)%nat then 3%nat else n in
  if (n =? 3)%nat || (n =? 8)%nat
  then Some (if sign then neg_infinity else infinity, (nsign + n)%nat)
  else None.

Definition special (s : string) : option (float * nat) :=
  match s with
  | EmptyString => None
  | String c s' =>
      if Ascii.eqb c "+" then specialInf false 1 s'
      else if Ascii.eqb c "-" then specialInf true 1 s'
      else if Ascii.eqb c "i" || Ascii.eqb c "I" then specialInf false 0 s
      else if Ascii.eqb c "n" || Ascii.eqb c "N" then
        if (commonPrefixLenIgnoreCase s "nan" =? 3)%nat
        then Some (nan, 3%nat) else None
      else None
  end.

(** [underscoreOK]: underscores only between digits, or between a base
    prefix and a digit.  [last] is the class of the previous byte:
    ['0'] digit, ['_'] underscore, ['!'] other, ['^'] start. *)
Inductive seen := SeenStart | SeenDigit | SeenUnderscore | SeenOther.

Fixpoint underscoreLoop (hex : bool) (last : seen) (s : string) : bool :=
  match s with
  | EmptyString => match last with SeenUnderscore => false | _ => true end
  | String c s' =>
      if isDecimal c || (hex && isHexLetter c)
      then underscoreLoop hex SeenDigit s'
      else if Ascii.eqb c "_" then
        match last with
        | SeenDigit => underscoreLoop hex SeenUnderscore s'
        | _ => false
        end
      else
        match last with
        | SeenUnderscore => false
        | _ => underscoreLoop hex SeenOther s'
        end
  end.

Definition underscoreOK (s : string) : bool :=
  let s := match s with
           | String c s' =>
               if Ascii.eqb c "-" || Ascii.eqb c "+" then s' else s
           | _ => s
           end in
  match s with
  | String c0 (String c1 s') =>
      if Ascii.eqb c0 "0"
         && ((lower c1 =? 98) || (lower c1 =? 111) || (lower c1 =? 120))
      then underscoreLoop (lower c1 =? 120) SeenDigit s'
      else underscoreLoop false SeenStart s
  | _ => underscoreLoop false SeenStart s
  end.

(** State of the digit loop of [readFloat].  [mantissa] holds every
    significant digit read (the library keeps the first 19 and a truncation
    flag for its fast paths, and re-reads the text otherwise). *)
Record digits := mkDigits {
  sawdot : bool;
  sawdigits : bool;
  nd : Z;
  dp : Z;
  mantissa : Z;
  underscores : bool
}.

Fixpoint readDigits (hex : bool) (st : digits) (s : string) : digits * string :=
  match s with
  | EmptyString => (st, s)
  | String c s' =>
      if Ascii.eqb c "_" then
        readDigits hex (mkDigits st.(sawdot) st.(sawdigits) st.(nd) st.(dp)
                          st.(mantissa) true) s'
      else if Ascii.eqb c "." then
        if st.(sawdot) then (st, s)
        else readDigits hex (mkDigits true st.(sawdigits) st.(nd) st.(nd)
                               st.(mantissa) st.(underscores)) s'
      else if isDecimal c then
        if Ascii.eqb c "0" && (st.(nd) =? 0) then
          readDigits hex (mkDigits st.(sawdot) true st.(nd) (st.(dp) - 1)
                            st.(mantissa) st.(underscores)) s'
        else
          readDigits hex
            (mkDigits st.(sawdot) true (st.(nd) + 1) st.(dp)
               (st.(mantissa) * (if hex then 16 else 10) + (byteVal c - 48))
               st.(underscores)) s'
      else if hex && isHexLetter c then
        readDigits hex
          (mkDigits st.(sawdot) true (st.(nd) + 1) st.(dp)
             (st.(mantissa) * 16 + (lower c - 97 + 10))
             st.(underscores)) s'
      else (st, s)
  end.

(** The digits of the exponent: [e] stops growing once it reaches 10000. *)
Fixpoint readExpDigits (e : Z) (us : bool) (s : string) : Z * bool * string :=
  match s with
  | EmptyString => (e, us, s)
  | String c s' =>
      if Ascii.eqb c "_" then readExpDigits e true s'
      else if isDecimal c then
        readExpDigits (if e <? 10000 then e * 10 + (byteVal c - 48) else e) us s'
      else (e, us, s)
  end.

(** What [readFloat] returns on success: the sign, whether the literal is
    hexadecimal, the digits as an integer, the exponent of the last digit
    (decimal, or binary for a hexadecimal literal) and the unread rest. *)
Record literal := mkLiteral {
  lit_neg : bool;
  lit_hex : bool;
  lit_mantissa : Z;
  lit_exp : Z;
  lit_rest : string
}.

Definition readFloat (s : string) : option literal :=
  match s with
  | EmptyString => None
  | String c0 s0 =>
      (* optional sign *)
      let neg := Ascii.eqb c0 "-" in
      let s1 := if Ascii.eqb c0 "+" || Ascii.eqb c0 "-" then s0 else s in
      (* base prefix: [i+2 < len(s) && s[i] == '0' && lower(s[i+1]) == 'x'] *)
      let '(hex, s2) :=
        match s1 with
        | String a (String b (String c r)) =>
            if Ascii.eqb a "0" && (lower b =? 120)
            then (true, String c r) else (false, s1)
        | _ => (false, s1)
        end in
      let '(st, s3) :=
        readDigits hex (mkDigits false false 0 0 0 false) s2 in
      if negb st.(sawdigits) then None
      else
        let dp0 := if st.(sawdot) then st.(dp) else st.(nd) in
        let dp1 := if hex then dp0 * 4 else dp0 in
        let ndMant := if hex then st.(nd) * 4 else st.(nd) in
        let finish (dp2 : Z) (us : bool) (rest : string) :=
          if us && negb (underscoreOK (take (length s - length rest) s))
          then None
          else Some (mkLiteral neg hex st.(mantissa)
                       (if st.(mantissa) =? 0 then 0 else dp2 - ndMant) rest) in
        match s3 with
        | String e s4 =>
            if lower e =? (if hex then 112 else 101) then
              match s4 with
              | EmptyString => None
              | String sg s5 =>
                  let esign := if Ascii.eqb sg "-" then (-1) else 1 in
                  let s6 := if Ascii.eqb sg "+" || Ascii.eqb sg "-"
                            then s5 else s4 in
                  match s6 with
                  | EmptyString => None
                  | String d _ =>
                      if negb (isDecimal d) then None
                      else
                        let '(e, us, rest) :=
                          readExpDigits 0 st.(underscores) s6 in
                        finish (dp1 + e * esign) us rest
                  end
              end
            else if hex then None
            else finish dp1 st.(underscores) s3
        | EmptyString =>
            if hex then None else finish dp1 st.(underscores) s3
        end
  end.

(** The value of a literal: the float nearest to
    [mantissa * 10^exp] (or [mantissa * 2^exp]), ties to even. *)
Definition literalValue (l : literal) : float :=
  let b := if l.(lit_hex) then 2 else 10 in
  if 0 <=? l.(lit_exp)
  then Float64.of_ratio l.(lit_neg) (l.(lit_mantissa) * b ^ l.(lit_exp)) 1
  else Float64.of_ratio l.(lit_neg) l.(lit_mantissa) (b ^ (- l.(lit_exp))).

(** [strconv.ParseFloat(s, 64)]: the whole of [s] must be consumed; a value
    that rounds to an infinity is a range error. *)
Definition ParseFloat (s : string) : result float :=
  match special s with
  | Some (f, n) => if (n =? length s)%nat then Ok f else Err ErrSyntax
  | None =>
      match readFloat s with
      | None => Err ErrSyntax
      | Some l =>
          match l.(lit_rest) with
          | EmptyString =>
              let f := literalValue l in
              if Float64.IsInf f then Err ErrRange else Ok f
          | _ => Err ErrSyntax
          end
      end
  end.
End strconv.

(** ** Package time *)

Module time.
Definition Nanosecond : Z := 1.
Definition Microsecond : Z := 1000 * Nanosecond.
Definition Millisecond : Z := 1000 * Microsecond.
Definition Second : Z := 1000 * Millisecond.
Definition Minute : Z := 60 * Second.
Definition Hour : Z := 60 * Minute.

(** The micro sign U+00B5 and the Greek letter mu U+03BC, in UTF-8. *)
Definition microSign : string :=
  String (ascii_of_nat 194) (String (ascii_of_nat 181) "s").
Definition greekMu : string :=
  String (ascii_of_nat 206) (String (ascii_of_nat 188) "s").

(** [unitMap]. *)
Definition unitMap (u : string) : option Z :=
  if String.eqb u "ns" then Some Nanosecond
  else if String.eqb u "us" then Some Microsecond
  else if String.eqb u microSign then Some Microsecond
  else if String.eqb u greekMu then Some Microsecond
  else if String.eqb u "ms" then Some Millisecond
  else if String.eqb u "s" then Some Second
  else if String.eqb u "m" then Some Minute
  else if String.eqb u "h" then Some Hour
  else None.

(** [leadingInt]: the leading [[0-9]*] of [s]; [None] on overflow. *)
Fixpoint leadingInt (x : Z) (s : string) : option (Z * string) :=
  match s with
  | EmptyString => Some (x, s)
  | String c s' =>
      if negb (isDecimal c) then Some (x, s)
      else if 2 ^ 63 / 10 <? x then None
      else
        let x' := x * 10 + (byteVal c - 48) in
        if 2 ^ 63 <? x' then None else leadingInt x' s'
  end.

(** [leadingFraction]: the leading [[0-9]*] of [s] as a numerator and a
    scale; digits that would overflow are dropped. *)
Fixpoint leadingFraction (x : Z) (scale : float) (overflow : bool) (s : string)
  : Z * float * string :=
  match s with
  | EmptyString => (x, scale, s)
  | String c s' =>
      if negb (isDecimal c) then (x, scale, s)
      else if overflow then leadingFraction x scale overflow s'
      else if (2 ^ 63 - 1) / 10 <? x then leadingFraction x scale true s'
      else
        let y := x * 10 + (byteVal c - 48) in
        if 2 ^ 63 <? y then leadingFraction x scale true s'
        else leadingFraction y (scale * 10)%float false s'
  end.

(** The unit: the bytes up to the next ['.'] or digit. *)
Fixpoint unitPrefix (s : string) : string * string :=
  match s with
  | EmptyString => (EmptyString, s)
  | String c s' =>
      if Ascii.eqb c "." || isDecimal c then (EmptyString, s)
      else let '(u, r) := unitPrefix s' in (String c u, r)
  end.

(** The optional period and digits after the integer part: numerator, scale,
    rest, and [post], whether a digit was read after the period. *)
Definition fractionPart (s1 : string) : Z * float * string * bool :=
  match s1 with
  | String c1 s1' =>
      if Ascii.eqb c1 "." then
        let '(f, scale, s2) := leadingFraction 0 1%float false s1' in
        (f, scale, s2, negb (length s1' =? length s2)%nat)
      else (0, 1%float, s1, false)
  | EmptyString => (0, 1%float, s1, false)
  end.

(** The loop [for s != ""] of [ParseDuration]; [d] is the sum so far.  Every
    round consumes at least one byte, so [length s] rounds are enough. *)
Fixpoint parseLoop (fuel : nat) (orig s : string) (d : Z) : result Z :=
  match s with
  | EmptyString => Ok d
  | String c _ =>
      match fuel with
      | O => Err (ErrTimeInvalidDuration orig)
      | S fuel' =>
          if negb (Ascii.eqb c "." || isDecimal c)
          then Err (ErrTimeInvalidDuration orig)
          else
            match leadingInt 0 s with
            | None => Err (ErrTimeInvalidDuration orig)
            | Some (v, s1) =>
                let pre := negb (length s =? length s1)%nat in
                let '(f, scale, s2, post) := fractionPart s1 in
                if negb pre && negb post
                then Err (ErrTimeInvalidDuration orig)
                else
                  let '(u, s3) := unitPrefix s2 in
                  if (length u =? 0)%nat then Err (ErrTimeMissingUnit orig)
                  else
                    match unitMap u with
                    | None => Err (ErrTimeUnknownUnit u orig)
                    | Some unit =>
                        if 2 ^ 63 / unit <? v
                        then Err (ErrTimeInvalidDuration orig)
                        else
                          let v1 := Uint64.mul v unit in
                          let v2 :=
                            if 0 <? f
                            then Uint64.add v1
                                   (Float64.to_uint64
                                      (Float64.of_Z f
                                       * (Float64.of_Z unit / scale))%float)
                            else v1 in
                          if (0 <? f) && (2 ^ 63 <? v2)
                          then Err (ErrTimeInvalidDuration orig)
                          else
                            let d' := Uint64.add d v2 in
                            if 2 ^ 63 <? d'
                            then Err (ErrTimeInvalidDuration orig)
                            else parseLoop fuel' orig s3 d'
                    end
            end
      end
  end.

(** [time.ParseDuration]. *)
Definition ParseDuration (orig : string) : result Z :=
  let '(neg, s) :=
    match orig with
    | String c s' =>
        if Ascii.eqb c "-" || Ascii.eqb c "+"
        then (Ascii.eqb c "-", s') else (false, orig)
    | EmptyString => (false, orig)
    end in
  if String.eqb s "0" then Ok 0
  else if String.eqb s "" then Err (ErrTimeInvalidDuration orig)
  else
    let* d := parseLoop (length s) orig s 0 in
    if neg then Ok (Int64.neg (Int64.wrap d))
    else if 2 ^ 63 - 1 <? d then Err (ErrTimeInvalidDuration orig)
    else Ok (Int64.wrap d).
End time.

(** ** Package flag, for the flag set of [parseArgs] *)

Module flag.
(** The variables the flags are bound to. *)
Record vars := mkVars {
  jitterStr : string;
  rangeStr : string;
  minStr : string;
  maxStr : string;
  verbose : bool
}.

(** The defaults given to [StringVar] and [BoolVar]. *)
Definition defaults : vars := mkVars "" "" "" "" false.

Inductive target := Jitter | Range | Min | Max | Verbose.

(** [f.formal]: the names registered by [parseArgs]. *)
Definition formal (name : string) : option target :=
  if String.eqb name "jitter" || String.eqb name "j" then Some Jitter
  else if String.eqb name "range" || String.eqb name "r" then Some Range
  else if String.eqb name "min" || String.eqb name "m" then Some Min
  else if String.eqb name "max" || String.eqb name "M" then Some Max
  else if String.eqb name "verbose" || String.eqb name "v" then Some Verbose
  else None.

Definition setString (t : target) (value : string) (v : vars) : vars :=
  match t with
  | Jitter => mkVars value v.(rangeStr) v.(minStr) v.(maxStr) v.(verbose)
  | Range => mkVars v.(jitterStr) value v.(minStr) v.(maxStr) v.(verbose)
  | Min => mkVars v.(jitterStr) v.(rangeStr) value v.(maxStr) v.(verbose)
  | Max => mkVars v.(jitterStr) v.(rangeStr) v.(minStr) value v.(verbose)
  | Verbose => v
  end.

(** The string variable a flag is bound to. *)
Definition getString (t : target) (v : vars) : string :=
  match t with
  | Jitter => v.(jitterStr)
  | Range => v.(rangeStr)
  | Min => v.(minStr)
  | Max => v.(maxStr)
  | Verbose => EmptyString
  end.

Definition setVerbose (b : bool) (v : vars) : vars :=
  mkVars v.(jitterStr) v.(rangeStr) v.(minStr) v.(maxStr) b.

(** The first ['='] of [name] that is not its first byte splits it into the
    name and the value. *)
Fixpoint splitAtEquals (s : string) : option (string * string) :=
  match s with
  | EmptyString => None
  | String c s' =>
      if Ascii.eqb c "=" then Some (EmptyString, s')
      else match splitAtEquals s' with
           | Some (n, v) => Some (String c n, v)
           | None => None
           end
  end.

Definition splitName (name : string) : string * option string :=
  match name with
  | EmptyString => (name, None)
  | String c s' =>
      match splitAtEquals s' with
      | Some (n, v) => (String c n, Some v)
      | None => (name, None)
      end
  end.

(** [FlagSet.Parse] with [ContinueOnError]: [parseOne] is repeated until it
    sees no flag.  Returns the variables and the remaining arguments
    ([fs.Args()]). *)
Fixpoint Parse (v : vars) (args : list string) : result (vars * list string) :=
  match args with
  | [] => Ok (v, [])
  | s :: rest =>
      match s with
      | String "-" (String c1 s2) =>
          let numMinuses := if Ascii.eqb c1 "-" then 2%nat else 1%nat in
          if Ascii.eqb c1 "-" && (length s =? 2)%nat
          then Ok (v, rest)                    (* "--" terminates the flags *)
          else
            let name := drop numMinuses s in
            match name with
            | EmptyString => Err (ErrBadFlagSyntax s)
            | String n0 _ =>
                if Ascii.eqb n0 "-" || Ascii.eqb n0 "="
                then Err (ErrBadFlagSyntax s)
                else
                  let '(name, value) := splitName name in
                  match formal name with
                  | None =>
                      if String.eqb name "help" || String.eqb name "h"
                      then Err ErrHelp
                      else Err (ErrFlagNotDefined name)
                  | Some Verbose =>
                      match value with
                      | Some val =>
                          match strconv.ParseBool val with
                          | Ok b => Parse (setVerbose b v) rest
                          | Err _ => Err (ErrInvalidBoolean val name)
                          end
                      | None => Parse (setVerbose true v) rest
                      end
                  | Some t =>
                      match value with
                      | Some val => Parse (setString t val v) rest
                      | None =>
                          match rest with
                          | val :: rest' => Parse (setString t val v) rest'
                          | [] => Err (ErrFlagNeedsArgument name)
                          end
                      end
                  end
            end
      | _ => Ok (v, args)      (* [len(s) < 2 || s[0] != '-']: not a flag *)
      end
  end.
End flag.

(** ** Packages crypto/rand and encoding/binary *)

(** What one call of [rand.Read] on an 8-byte buffer does: it fills the
    buffer, or returns an error. *)
Inductive readOutcome : Type :=
  | ReadOk (bytes : list Byte.byte)
  | ReadError.

(** The entropy source: the outcome of the [k]-th call of [rand.Read]. *)
Definition entropy : Type := nat -> readOutcome.

(** The buffer after a successful read: its first bytes are overwritten. *)
Definition fillBuf (buf bytes : list Byte.byte) : list Byte.byte :=
  firstn (List.length buf) (bytes ++ skipn (List.length bytes) buf).

Module binary.
(** [binary.LittleEndian.Uint64]. *)
Fixpoint LittleEndianUint64 (b : list Byte.byte) : Z :=
  match b with
  | [] => 0
  | x :: b' => Z.of_N (Byte.to_N x) + 256 * LittleEndianUint64 b'
  end.
End binary.

(** * The program *)

Definition defaultJitterFraction : float := 0.5%float.

(** [24*time.Hour] and the constant [maxDays] of [parseDuration]. *)
Definition day : Z := 24 * time.Hour.

Definition maxDays : float :=
  (Float64.of_Z Int64.MaxInt64 / Float64.of_Z day)%float.

Definition parseDuration (s : string) : result Z :=
  if String.eqb s "" then Err ErrEmptyDuration
  else if strings.HasSuffix s "d" then
    (* Handle days. *)
    match strconv.ParseFloat (strings.TrimSuffix s "d") with
    | Err _ => Err (ErrInvalidDuration s)
    | Ok num =>
        if (maxDays <? num)%float || (num <? - maxDays)%float
        then Err (ErrDurationOutOfRange s)
        else Ok (Float64.to_int64 (num * Float64.of_Z day)%float)
    end
  else
    (* Append "s" if the duration is a number without a unit. *)
    let s := if unicode.IsDigit (lastByte s) then s ++ "s" else s in
    time.ParseDuration s.

Definition parsePercent (s : string) : result float :=
  if negb (strings.HasSuffix s "%") then Err (ErrPercentSuffix s)
  else
    match strconv.ParseFloat (strings.TrimSuffix s "%") with
    | Err _ => Err (ErrInvalidPercent s)
    | Ok val =>
        if (val <? 0)%float then Err ErrNegativeJitter
        else Ok (val / 100)%float
    end.

(** *** parseArgs

    [parseArgs] is [flag.Parse] followed by [resolve], the rest of the
    function; [resolve] is cut at the places the specification names: the
    conflict checks, the parsing of the bounds, the base, the interval before
    clamping, and the clamp. *)

(** The positional jitter: [pos[1]] when there are two positionals. *)
Definition positionalJitterOf (pos : list string) : string :=
  if (List.length pos =? 2)%nat then nth 1 pos "" else "".

(** The conflicts between jitter specifications. *)
Definition checkConflicts (v : flag.vars) (pos : list string) : result unit :=
  let positionalJitter := positionalJitterOf pos in
  let jitterSet := negb (String.eqb v.(flag.jitterStr) "") in
  let rangeSet := negb (String.eqb v.(flag.rangeStr) "") in
  if jitterSet && rangeSet then Err ErrJitterWithRange
  else if negb (String.eqb positionalJitter "") && jitterSet
  then Err ErrJitterTwice
  else if negb (String.eqb positionalJitter "") && rangeSet
  then Err ErrPositionalWithRange
  else Ok tt.

(** [rangeVal], [minVal], [maxVal]: zero when the flag is not set. *)
Definition parseFlagDuration (str : string) : result Z :=
  if negb (String.eqb str "") then parseDuration str else Ok 0.

Definition parseBounds (v : flag.vars) : result (Z * Z * Z) :=
  let* rangeVal := parseFlagDuration v.(flag.rangeStr) in
  let* minVal := parseFlagDuration v.(flag.minStr) in
  let* maxVal := parseFlagDuration v.(flag.maxStr) in
  let minSet := negb (String.eqb v.(flag.minStr) "") in
  let maxSet := negb (String.eqb v.(flag.maxStr) "") in
  if minSet && maxSet && (maxVal <? minVal) then Err ErrMaxBelowMin
  else Ok (rangeVal, minVal, maxVal).

(** [base] and [hasBase]. *)
Definition parseBase (pos : list string) : result (Z * bool) :=
  if (List.length pos =? 1)%nat || (List.length pos =? 2)%nat then
    let* base := parseDuration (nth 0 pos "") in Ok (base, true)
  else Ok (0, false).

(** The jitter fraction of the percent branch. *)
Definition jitterFraction (v : flag.vars) (pos : list string) : result float :=
  let positionalJitter := positionalJitterOf pos in
  if negb (String.eqb v.(flag.jitterStr) "") then parsePercent v.(flag.jitterStr)
  else if negb (String.eqb positionalJitter "") then parsePercent positionalJitter
  else Ok defaultJitterFraction.

(** The percent branch, from the base and the fraction. *)
Definition percentInterval (base : Z) (fraction : float) : result (Z * Z) :=
  let baseNs := Float64.of_Z base in
  let delta := Float64.Round (baseNs * fraction)%float in
  if Float64.IsNaN delta || Float64.IsInf delta then Err ErrJitterOverflow
  else
    let lowNs := (baseNs - delta)%float in
    let highNs := (baseNs + delta)%float in
    if (lowNs <? Float64.of_Z Int64.MinInt64)%float
       || (Float64.of_Z Int64.MaxInt64 <? lowNs)%float
       || (highNs <? Float64.of_Z Int64.MinInt64)%float
       || (Float64.of_Z Int64.MaxInt64 <? highNs)%float
    then Err ErrJitterOverflow
    else Ok (Float64.to_int64 lowNs, Float64.to_int64 highNs).

(** The [switch]: the interval before clamping. *)
Definition unclamped (v : flag.vars) (pos : list string)
    (rangeVal minVal maxVal base : Z) (hasBase : bool) : result (Z * Z) :=
  let rangeSet := negb (String.eqb v.(flag.rangeStr) "") in
  let minSet := negb (String.eqb v.(flag.minStr) "") in
  let maxSet := negb (String.eqb v.(flag.maxStr) "") in
  if rangeSet then
    if negb hasBase then Err ErrRangeRequiresBase
    else Ok (Int64.sub base rangeVal, Int64.add base rangeVal)
  else if hasBase then
    let* fraction := jitterFraction v pos in
    percentInterval base fraction
  else if minSet && maxSet then Ok (minVal, maxVal)
  else Err ErrMissingDuration.

(** The clamp to [min] and [max], and the floor at zero. *)
Definition clamp (v : flag.vars) (minVal maxVal : Z) (iv : Z * Z) : Z * Z :=
  let minSet := negb (String.eqb v.(flag.minStr) "") in
  let maxSet := negb (String.eqb v.(flag.maxStr) "") in
  let '(low, high) := iv in
  let '(low, high) :=
    if minSet then (Z.max low minVal, Z.max high minVal) else (low, high) in
  let '(low, high) :=
    if maxSet then (Z.min low maxVal, Z.min high maxVal) else (low, high) in
  (Z.max low 0, Z.max high 0).

(** The interval before clamping, with the bounds the clamp needs. *)
Definition preclamp (v : flag.vars) (pos : list string)
  : result (Z * Z * (Z * Z)) :=
  if (2 <? List.length pos)%nat then Err ErrTooManyPositional
  else
    let* _ := checkConflicts v pos in
    let* (rangeVal, minVal, maxVal) := parseBounds v in
    let* (base, hasBase) := parseBase pos in
    let* iv := unclamped v pos rangeVal minVal maxVal base hasBase in
    Ok (minVal, maxVal, iv).

(** [parseArgs] after [fs.Parse]: from the flag variables and [fs.Args()]. *)
Definition resolve (v : flag.vars) (pos : list string) : result (Z * Z * bool) :=
  let* (minVal, maxVal, iv) := preclamp v pos in
  let '(low, high) := clamp v minVal maxVal iv in
  if high <? low then Err ErrEmptyInterval
  else Ok (low, high, v.(flag.verbose)).

Definition parseArgs (args : list string) : result (Z * Z * bool) :=
  let* (v, pos) := flag.Parse flag.defaults args in
  resolve v pos.

(** *** The sampler *)

(** [limit] in [cryptoRandInt64]. *)
Definition limit (n : Z) : Z :=
  Uint64.sub Uint64.MaxUint64 (Uint64.MaxUint64 mod Uint64.wrap n).

(** The loop [for range 1000]: [k] counts the calls of [rand.Read]. *)
Fixpoint drawLoop (attempts : nat) (n : Z) (rnd : entropy) (buf : list Byte.byte)
    (k : nat) : result Z * nat :=
  match attempts with
  | O => (Err ErrRandExhausted, k)
  | S attempts' =>
      match rnd k with
      | ReadError => (Err ErrRandRead, S k)
      | ReadOk bytes =>
          let buf := fillBuf buf bytes in
          let v := binary.LittleEndianUint64 buf in
          if v <? limit n
          then (Ok (Int64.wrap (v mod Uint64.wrap n)), S k)
          else drawLoop attempts' n rnd buf (S k)
      end
  end.

Definition cryptoRandInt64 (n : Z) (rnd : entropy) (k : nat) : result Z * nat :=
  if n <=? 0 then (Err ErrNotPositive, k)
  else drawLoop 1000 n rnd (repeat Byte.x00 8) k.

Definition chooseSleepDuration (low high : Z) (rnd : entropy) (k : nat)
  : result Z * nat :=
  if high =? low then (Ok (Z.max low 0), k)
  else if high <? low then (Err ErrLowAboveHigh, k)
  else
    let width := Int64.sub high low in
    if Int64.add low width =? Int64.MaxInt64 then (Ok high, k)
    else
      match cryptoRandInt64 (Int64.add width 1) rnd k with
      | (Err e, k') => (Err e, k')
      | (Ok offset, k') => (Ok (Z.max (Int64.add low offset) 0), k')
      end.

(** *** main *)

Module Duration.
(** [lessThanHalf]: [uint64(x)+uint64(x) < uint64(y)]. *)
Definition lessThanHalf (x y : Z) : bool :=
  Uint64.add (Uint64.wrap x) (Uint64.wrap x) <? Uint64.wrap y.

(** [Duration.Round]: the multiple of [m] nearest to [d], halves away from
    zero; [d] itself for [m <= 0]; the largest or smallest Duration when the
    result would not fit.  [%] is Go's remainder, truncated toward zero. *)
Definition Round (d m : Z) : Z :=
  if m <=? 0 then d
  else
    let r := Z.rem d m in
    if d <? 0 then
      let r := Int64.neg r in
      if lessThanHalf r m then Int64.add d r
      else
        let d1 := Int64.add (Int64.sub d m) r in
        if d1 <? d then d1 else Int64.MinInt64
    else
      if lessThanHalf r m then Int64.sub d r
      else
        let d1 := Int64.sub (Int64.add d m) r in
        if d <? d1 then d1 else Int64.MaxInt64.
End Duration.

(** What a run of the program does: it exits with status 1 after reporting
    an error, or it sleeps for [d], after printing [logged] (the Duration given
    to the "sleeping for" line) when that is present. *)
Inductive outcome : Type :=
  | Exit1 (e : error)
  | Sleep (d : Z) (logged : option Z).

(** [main], from [os.Args[1:]] and the entropy source. *)
Definition main (args : list string) (rnd : entropy) : outcome :=
  match parseArgs args with
  | Err e => Exit1 e
  | Ok (low, high, verbose) =>
      match chooseSleepDuration low high rnd 0 with
      | (Err e, _) => Exit1 e
      | (Ok sleepValue, _) =>
          Sleep sleepValue
            (if verbose
             then Some (Duration.Round sleepValue time.Millisecond)
             else None)
      end
  end.

(** A command-line token that [flag] does not read as a flag:
    [len(s) < 2 || s[0] != '-']. *)
Definition notFlag (s : string) : bool :=
  match s with
  | String c (String _ _) => negb (Ascii.eqb c "-")
  | _ => true
  end.

(** *** Definitions used to state the properties *)

(** The integers [a], [a+1], ..., [a+len-1]. *)
Fixpoint Zrange (a : Z) (len : nat) : list Z :=
  match len with
  | O => []
  | S len' => a :: Zrange (a + 1) len'
  end.

(** The source values [cryptoRandInt64] accepts: those below [limit n]. *)
Definition accepted (n : Z) : list Z := Zrange 0 (Z.to_nat (limit n)).

(** The accepted source values that are reduced to the offset [r]. *)
Definition preimages (n r : Z) : list Z :=
  filter (fun v => v mod Uint64.wrap n =? r) (accepted n).

(** The source rejects its reads number [k], ..., [k+i-1]: each fills the
    buffer with a value that is not below [limit n]. *)
Definition rejects (n : Z) (rnd : entropy) (k i : nat) : Prop :=
  forall j, (j < i)%nat ->
    exists b, rnd (k + j)%nat = ReadOk b /\ List.length b = 8%nat
              /\ limit n <= binary.LittleEndianUint64 b.

(** No two jitter specifications are given together: not the named percent
    with the range, and no positional percent (a non-empty second positional)
    with either of them. *)
Definition noConflict (v : flag.vars) (pos : list string) : Prop :=
  (v.(flag.jitterStr) = "" \/ v.(flag.rangeStr) = "")
  /\ (List.length pos = 2%nat -> nth 1 pos "" <> "" ->
      v.(flag.jitterStr) = "" /\ v.(flag.rangeStr) = "").

(** How many values of [l] are reduced to [r] modulo [n]. *)
Definition hits (n r : Z) (l : list Z) : nat :=
  List.length (filter (fun v => v mod n =? r) l).












(** *** Integers held in a float64 *)




(** * Properties *)

(** ** Machine arithmetic *)

Lemma wrap_in_range (z : Z) : Int64.in_range (Int64.wrap z).
Proof.
  unfold Int64.in_range, Int64.wrap, Int64.MinInt64, Int64.MaxInt64.
  pose proof (Z.mod_pos_bound (z + 2 ^ 63) (2 ^ 64) ltac:(lia)). lia.
Qed.

Lemma wrap_small (z : Z) : Int64.in_range z -> Int64.wrap z = z.
Proof.
  unfold Int64.in_range, Int64.wrap, Int64.MinInt64, Int64.MaxInt64. intros H.
  rewrite Z.mod_small; lia.
Qed.

(** A sum or difference of two [int64] that overflows wraps by [2^64]. *)
Lemma wrap_above (z : Z) :
  2 ^ 63 <= z < 2 ^ 63 + 2 ^ 64 -> Int64.wrap z = z - 2 ^ 64.
Proof.
  intros H. unfold Int64.wrap.
  replace (z + 2 ^ 63) with (z - 2 ^ 64 + 2 ^ 63 + 1 * 2 ^ 64) by lia.
  rewrite Z.mod_add by lia. rewrite Z.mod_small; lia.
Qed.

Lemma uwrap_small (z : Z) : 0 <= z <= Uint64.MaxUint64 -> Uint64.wrap z = z.
Proof.
  unfold Uint64.wrap, Uint64.MaxUint64. intros H. apply Z.mod_small. lia.
Qed.

(** [low + (high - low)] is [high], whether or not the difference wraps. *)
Lemma add_sub_wrap (low high : Z) :
  Int64.in_range low -> Int64.in_range high -> low <= high ->
  Int64.add low (Int64.sub high low) = high.
Proof.
  unfold Int64.in_range, Int64.MinInt64, Int64.MaxInt64, Int64.add, Int64.sub.
  intros Hl Hh Hle.
  destruct (Z_lt_le_dec (high - low) (2 ^ 63)) as [Hs | Hb].
  - rewrite (wrap_small (high - low)).
    + replace (low + (high - low)) with high by lia. apply wrap_small.
      unfold Int64.in_range, Int64.MinInt64, Int64.MaxInt64. lia.
    + unfold Int64.in_range, Int64.MinInt64, Int64.MaxInt64. lia.
  - rewrite (wrap_above (high - low)) by lia.
    unfold Int64.wrap.
    replace (low + (high - low - 2 ^ 64) + 2 ^ 63)
      with (high + 2 ^ 63 + (-1) * 2 ^ 64) by lia.
    rewrite Z.mod_add by lia. rewrite Z.mod_small; lia.
Qed.

(** ** The resolved interval *)

Lemma clamp_floor (v : flag.vars) (minVal maxVal : Z) (iv : Z * Z) :
  0 <= fst (clamp v minVal maxVal iv) /\ 0 <= snd (clamp v minVal maxVal iv).
Proof.
  unfold clamp. destruct iv as [low high].
  destruct (negb (v.(flag.minStr) =? "")%string);
    destruct (negb (v.(flag.maxStr) =? "")%string); simpl; lia.
Qed.

Lemma resolve_interval (v : flag.vars) (pos : list string) (low high : Z) (vb : bool) :
  resolve v pos = Ok (low, high, vb) -> 0 <= low <= high.
Proof.
  unfold resolve, bind. destruct (preclamp v pos) as [[[minVal maxVal] iv] | e];
    [ | discriminate ].
  pose proof (clamp_floor v minVal maxVal iv) as [Hl _].
  destruct (clamp v minVal maxVal iv) as [l h]. simpl in Hl.
  destruct (h <? l) eqn:Hlt; [ discriminate | ].
  intros H. injection H as <- <- _. apply Z.ltb_ge in Hlt. lia.
Qed.

(** C1. Whenever [parseArgs] succeeds, the interval it returns satisfies
    [0 <= low <= high]: an argument list that would give any other interval is
    answered by an error. *)
Theorem parseArgs_interval (args : list string) (low high : Z) (vb : bool) :
  parseArgs args = Ok (low, high, vb) -> 0 <= low <= high.
Proof.
  unfold parseArgs, bind.
  destruct (flag.Parse flag.defaults args) as [[v pos] | e]; [ | discriminate ].
  apply resolve_interval.
Qed.

Lemma parseArgs_interval_witness :
  parseArgs ["10s"] = Ok (5000000000, 15000000000, false)
  /\ 0 <= 5000000000 <= 15000000000.
Proof.
  split; [ vm_compute; reflexivity | ].
  apply (parseArgs_interval ["10s"] 5000000000 15000000000 false).
  vm_compute; reflexivity.
Defined.

(** ** The sampler *)

Lemma drawLoop_offset (attempts : nat) (n : Z) (rnd : entropy)
    (buf : list Byte.byte) (k k' : nat) (r : Z) :
  0 < n <= Int64.MaxInt64 ->
  drawLoop attempts n rnd buf k = (Ok r, k') -> 0 <= r < n.
Proof.
  intros Hn. revert buf k.
  induction attempts as [ | attempts IH]; intros buf k; simpl.
  - discriminate.
  - destruct (rnd k) as [bytes | ]; [ | discriminate ].
    destruct (binary.LittleEndianUint64 (fillBuf buf bytes) <? limit n).
    + intros H. injection H as <- _.
      unfold Int64.MaxInt64 in Hn.
      rewrite (uwrap_small n) by (unfold Uint64.MaxUint64; lia).
      pose proof (Z.mod_pos_bound
                    (binary.LittleEndianUint64 (fillBuf buf bytes)) n
                    ltac:(lia)) as Hm.
      rewrite wrap_small; [ exact Hm | ].
      unfold Int64.in_range, Int64.MinInt64, Int64.MaxInt64. lia.
    + apply IH.
Qed.

Lemma cryptoRandInt64_offset (n : Z) (rnd : entropy) (k k' : nat) (r : Z) :
  Int64.in_range n ->
  cryptoRandInt64 n rnd k = (Ok r, k') -> 0 < n /\ 0 <= r < n.
Proof.
  unfold cryptoRandInt64, Int64.in_range. intros Hn.
  destruct (n <=? 0) eqn:Hle; [ discriminate | ].
  apply Z.leb_gt in Hle. intros H. split; [ exact Hle | ].
  eapply drawLoop_offset; [ | exact H ]. lia.
Qed.

(** C2, as the code has it.  For Durations [low <= high], when
    [chooseSleepDuration] returns a value [d], that value is some point of
    [[low, high]] floored at zero: [max(low, 0) <= d <= max(high, 0)].  With
    [0 <= low] this is [low <= d <= high].  For [low = high] the call never
    fails, draws nothing and returns [max(low, 0)], which is the common value
    when it is not negative. *)
Theorem chooseSleepDuration_range (low high : Z) (rnd : entropy) (k : nat) :
  Int64.in_range low -> Int64.in_range high -> low <= high ->
  (forall d k', chooseSleepDuration low high rnd k = (Ok d, k') ->
     Z.max low 0 <= d <= Z.max high 0
     /\ (0 <= low -> low <= d <= high))
  /\ (low = high -> chooseSleepDuration low high rnd k = (Ok (Z.max low 0), k)).
Proof.
  intros Hl Hh Hle. split.
  - intros d k'. unfold chooseSleepDuration.
    destruct (high =? low) eqn:Heq.
    + apply Z.eqb_eq in Heq. subst high. intros H. injection H as <- _. lia.
    + destruct (high <? low) eqn:Hlt; [ discriminate | ].
      rewrite add_sub_wrap by assumption.
      destruct (high =? Int64.MaxInt64) eqn:Hmax.
      * apply Z.eqb_eq in Hmax. intros H. injection H as <- _.
        unfold Int64.in_range, Int64.MinInt64, Int64.MaxInt64 in *. lia.
      * apply Z.eqb_neq in Hmax. apply Z.eqb_neq in Heq.
        destruct (cryptoRandInt64 (Int64.add (Int64.sub high low) 1) rnd k)
          as [[offset | e] k''] eqn:Hdraw; [ | discriminate ].
        intros H. injection H as <- _.
        apply cryptoRandInt64_offset in Hdraw; [ | apply wrap_in_range ].
        destruct Hdraw as [Hn Hoff]. revert Hn Hoff.
        unfold Int64.add, Int64.sub.
        unfold Int64.in_range, Int64.MinInt64, Int64.MaxInt64 in *.
        destruct (Z_lt_le_dec (high - low) (2 ^ 63 - 1)) as [Hs | Hb].
        -- rewrite (wrap_small (high - low))
             by (unfold Int64.in_range, Int64.MinInt64, Int64.MaxInt64; lia).
           rewrite (wrap_small (high - low + 1))
             by (unfold Int64.in_range, Int64.MinInt64, Int64.MaxInt64; lia).
           intros Hn Hoff.
           rewrite (wrap_small (low + offset))
             by (unfold Int64.in_range, Int64.MinInt64, Int64.MaxInt64; lia).
           lia.
        -- destruct (Z.eq_dec (high - low) (2 ^ 63 - 1)) as [He | Hne].
           ++ rewrite (wrap_small (high - low))
                by (unfold Int64.in_range, Int64.MinInt64, Int64.MaxInt64; lia).
              rewrite (wrap_above (high - low + 1)) by lia. lia.
           ++ rewrite (wrap_above (high - low)) by lia.
              rewrite (wrap_small (high - low - 2 ^ 64 + 1))
                by (unfold Int64.in_range, Int64.MinInt64, Int64.MaxInt64; lia).
              lia.
  - intros ->. unfold chooseSleepDuration. rewrite Z.eqb_refl. reflexivity.
Qed.

Lemma chooseSleepDuration_range_witness :
  chooseSleepDuration 5000000000 15000000000
    (fun _ => ReadOk [Byte.x07; Byte.x00; Byte.x00; Byte.x00;
                      Byte.x00; Byte.x00; Byte.x00; Byte.x00]) 0
  = (Ok 5000000007, 1%nat)
  /\ (5000000000 <= 5000000007 <= 15000000000).
Proof.
  split; [ vm_compute; reflexivity | ].
  refine (proj2 (proj1 (chooseSleepDuration_range 5000000000 15000000000
            (fun _ => ReadOk [Byte.x07; Byte.x00; Byte.x00; Byte.x00;
                              Byte.x00; Byte.x00; Byte.x00; Byte.x00]) 0
            _ _ _) 5000000007 1%nat _) _).
  - unfold Int64.in_range, Int64.MinInt64, Int64.MaxInt64; lia.
  - unfold Int64.in_range, Int64.MinInt64, Int64.MaxInt64; lia.
  - lia.
  - vm_compute; reflexivity.
  - lia.
Defined.

(** C2 as stated fails below zero: for [low = high = -5] the call returns 0,
    which is neither inside [[-5, -5]] nor the common value. *)
Lemma chooseSleepDuration_negative_counterexample :
  Int64.in_range (-5) /\ -5 <= -5
  /\ chooseSleepDuration (-5) (-5) (fun _ => ReadError) 0 = (Ok 0, 0%nat)
  /\ ~ (-5 <= 0 <= -5)
  /\ 0 <> -5.
Proof.
  unfold Int64.in_range, Int64.MinInt64, Int64.MaxInt64.
  split; [ lia | ]. split; [ lia | ].
  split; [ vm_compute; reflexivity | ]. split; lia.
Qed.

(** ** Rejection sampling *)

Lemma limit_eq (n : Z) :
  0 < n <= Int64.MaxInt64 ->
  limit n = Uint64.MaxUint64 - Uint64.MaxUint64 mod n.
Proof.
  intros Hn. unfold limit, Uint64.sub. unfold Int64.MaxInt64 in Hn.
  rewrite (uwrap_small n) by (unfold Uint64.MaxUint64; lia).
  pose proof (Z.mod_pos_bound Uint64.MaxUint64 n ltac:(lia)) as Hm.
  pose proof (Z.mod_le Uint64.MaxUint64 n) as Hle.
  apply uwrap_small. unfold Uint64.MaxUint64 in *. lia.
Qed.

Lemma limit_multiple (n : Z) :
  0 < n <= Int64.MaxInt64 -> limit n = n * (Uint64.MaxUint64 / n).
Proof.
  intros Hn. rewrite limit_eq by assumption.
  pose proof (Z.div_mod Uint64.MaxUint64 n ltac:(lia)). lia.
Qed.

Lemma In_Zrange (len : nat) (a v : Z) :
  In v (Zrange a len) <-> a <= v < a + Z.of_nat len.
Proof.
  revert a. induction len as [ | len IH]; intros a; simpl Zrange.
  - simpl. lia.
  - simpl In. rewrite IH. lia.
Qed.

Lemma Zrange_app (l1 l2 : nat) (a : Z) :
  Zrange a (l1 + l2) = (Zrange a l1 ++ Zrange (a + Z.of_nat l1) l2)%list.
Proof.
  revert a. induction l1 as [ | l1 IH]; intros a.
  - cbn [Nat.add Zrange app]. replace (a + Z.of_nat 0) with a by lia.
    reflexivity.
  - cbn [Nat.add Zrange app]. rewrite IH.
    replace (a + 1 + Z.of_nat l1) with (a + Z.of_nat (S l1)) by lia.
    reflexivity.
Qed.

Section Counting.
Variables n r : Z.
Hypothesis Hn : 0 < n.
Hypothesis Hr : 0 <= r < n.

Lemma hits_app (l1 l2 : list Z) :
  hits n r (l1 ++ l2) = (hits n r l1 + hits n r l2)%nat.
Proof. unfold hits. now rewrite filter_app, length_app. Qed.

Lemma hits_cons (v : Z) (l : list Z) :
  hits n r (v :: l)
  = Nat.add (if v mod n =? r then 1%nat else 0%nat) (hits n r l).
Proof. unfold hits. cbn [filter]. now destruct (v mod n =? r). Qed.

(** Inside one block [[b*n, b*n + n)] exactly the value [b*n + r] is
    reduced to [r]. *)
Lemma hits_in_block (len : nat) (b s : Z) :
  0 <= s -> s + Z.of_nat len <= n ->
  hits n r (Zrange (b * n + s) len)
  = if (s <=? r) && (r <? s + Z.of_nat len) then 1%nat else 0%nat.
Proof.
  revert s. induction len as [ | len IH]; intros s Hs Hlen.
  - simpl. destruct (s <=? r) eqn:E1; destruct (r <? s + 0) eqn:E2;
      try reflexivity.
    apply Z.leb_le in E1. apply Z.ltb_lt in E2. lia.
  - cbn [Zrange]. rewrite hits_cons.
    replace ((b * n + s) mod n) with s
      by (rewrite Z.add_comm, Z.mod_add by lia;
          symmetry; apply Z.mod_small; lia).
    replace (b * n + s + 1) with (b * n + (s + 1)) by lia.
    destruct (s =? r) eqn:Es.
    + apply Z.eqb_eq in Es. rewrite IH by lia.
      replace (s + 1 <=? r) with false by (symmetry; apply Z.leb_gt; lia).
      replace (s <=? r) with true by (symmetry; apply Z.leb_le; lia).
      replace (r <? s + Z.of_nat (S len)) with true
        by (symmetry; apply Z.ltb_lt; lia).
      reflexivity.
    + apply Z.eqb_neq in Es. rewrite IH by lia.
      replace (s + 1 + Z.of_nat len) with (s + Z.of_nat (S len)) by lia.
      destruct (r <? s + Z.of_nat (S len)); [ | now rewrite !andb_false_r ].
      rewrite !andb_true_r.
      destruct (s <=? r) eqn:E1; destruct (s + 1 <=? r) eqn:E2;
        try reflexivity;
        [ apply Z.leb_le in E1; apply Z.leb_gt in E2
        | apply Z.leb_gt in E1; apply Z.leb_le in E2 ]; lia.
Qed.

(** [q] consecutive blocks contain [q] values reduced to [r]. *)
Lemma hits_in_blocks (q : nat) (b : Z) :
  hits n r (Zrange (b * n) (q * Z.to_nat n)) = q.
Proof.
  revert b. induction q as [ | q IH]; intros b.
  - reflexivity.
  - cbn [Nat.mul]. rewrite Zrange_app, hits_app.
    replace (b * n + Z.of_nat (Z.to_nat n)) with ((b + 1) * n) by lia.
    rewrite IH.
    replace (b * n) with (b * n + 0) by lia.
    rewrite hits_in_block by lia.
    replace (0 <=? r) with true by (symmetry; apply Z.leb_le; lia).
    replace (r <? 0 + Z.of_nat (Z.to_nat n)) with true
      by (symmetry; apply Z.ltb_lt; lia).
    reflexivity.
Qed.
End Counting.

Lemma preimages_count (n r : Z) :
  0 < n <= Int64.MaxInt64 -> 0 <= r < n ->
  Z.of_nat (List.length (preimages n r)) = limit n / n.
Proof.
  intros Hn Hr. unfold preimages, accepted.
  unfold Int64.MaxInt64 in Hn.
  rewrite (uwrap_small n) by (unfold Uint64.MaxUint64; lia).
  rewrite limit_multiple by (unfold Int64.MaxInt64; lia).
  assert (Hq : 0 <= Uint64.MaxUint64 / n) by (apply Z.div_pos; [ unfold Uint64.MaxUint64 | ]; lia).
  replace (Z.to_nat (n * (Uint64.MaxUint64 / n)))
    with (Z.to_nat (Uint64.MaxUint64 / n) * Z.to_nat n)%nat
    by (rewrite <- Z2Nat.inj_mul by lia; f_equal; lia).
  change (Zrange 0) with (Zrange (0 * n)).
  fold (hits n r (Zrange (0 * n)
          (Z.to_nat (Uint64.MaxUint64 / n) * Z.to_nat n))).
  rewrite (hits_in_blocks n r ltac:(lia) Hr).
  rewrite Z2Nat.id by lia.
  rewrite Z.mul_comm, Z.div_mul by lia. reflexivity.
Qed.

Lemma fillBuf_full (bytes : list Byte.byte) :
  List.length bytes = 8%nat -> fillBuf (repeat Byte.x00 8) bytes = bytes.
Proof.
  intros H.
  do 8 (destruct bytes as [ | ? bytes]; [ discriminate | ]).
  destruct bytes; [ reflexivity | discriminate ].
Qed.

Lemma drawLoop_accept (attempts : nat) (n : Z) (rnd : entropy)
    (buf bytes : list Byte.byte) (k : nat) :
  rnd k = ReadOk bytes ->
  binary.LittleEndianUint64 (fillBuf buf bytes) < limit n ->
  drawLoop (S attempts) n rnd buf k
  = (Ok (Int64.wrap (binary.LittleEndianUint64 (fillBuf buf bytes)
                     mod Uint64.wrap n)), S k).
Proof.
  intros Hk Hv. cbn [drawLoop]. rewrite Hk.
  apply Z.ltb_lt in Hv. rewrite Hv. reflexivity.
Qed.

Lemma fillBuf_same_length (buf bytes : list Byte.byte) :
  List.length buf = List.length bytes -> fillBuf buf bytes = bytes.
Proof.
  intros H. unfold fillBuf. rewrite H.
  rewrite firstn_app, Nat.sub_diag, firstn_all. cbn [firstn].
  apply app_nil_r.
Qed.

Lemma rejects_tail (n : Z) (rnd : entropy) (k i : nat) :
  rejects n rnd k (S i) -> rejects n rnd (S k) i.
Proof.
  intros H j Hj. destruct (H (S j) ltac:(lia)) as (b & Hb & Hlen).
  exists b. split; [ | exact Hlen ].
  now replace (S k + j)%nat with (k + S j)%nat by lia.
Qed.

Lemma drawLoop_skip (i attempts : nat) (n : Z) (rnd : entropy)
    (buf : list Byte.byte) (k : nat) :
  List.length buf = 8%nat -> rejects n rnd k i ->
  exists buf', List.length buf' = 8%nat
    /\ drawLoop (i + attempts) n rnd buf k
       = drawLoop attempts n rnd buf' (k + i).
Proof.
  revert buf k. induction i as [ | i IH]; intros buf k Hbuf Hrej.
  - exists buf. split; [ exact Hbuf | ]. now rewrite Nat.add_0_r.
  - destruct (Hrej 0%nat ltac:(lia)) as (b & Hb & Hlen & Hv).
    rewrite Nat.add_0_r in Hb.
    destruct (IH b (S k) Hlen (rejects_tail _ _ _ _ Hrej)) as (buf' & Hbuf' & E).
    exists buf'. split; [ exact Hbuf' | ].
    cbn [Nat.add drawLoop]. rewrite Hb.
    rewrite fillBuf_same_length by congruence.
    replace (binary.LittleEndianUint64 b <? limit n) with false
      by (symmetry; apply Z.ltb_ge; exact Hv).
    rewrite E. f_equal. lia.
Qed.

(** The loop skips the rejected reads and stops at the first accepted one. *)
Lemma drawLoop_first_accepted (n : Z) (rnd : entropy) (k i : nat)
    (bytes : list Byte.byte) :
  0 < n <= Int64.MaxInt64 -> (i < 1000)%nat ->
  rejects n rnd k i ->
  rnd (k + i)%nat = ReadOk bytes -> List.length bytes = 8%nat ->
  binary.LittleEndianUint64 bytes < limit n ->
  cryptoRandInt64 n rnd k
  = (Ok (binary.LittleEndianUint64 bytes mod n), S (k + i)).
Proof.
  intros Hn Hi Hrej Hk Hlen Hv. unfold cryptoRandInt64.
  replace (n <=? 0) with false by (symmetry; apply Z.leb_gt; lia).
  replace 1000%nat with (i + S (999 - i))%nat by lia.
  destruct (drawLoop_skip i (S (999 - i)) n rnd (repeat Byte.x00 8) k
              eq_refl Hrej) as (buf' & Hbuf' & ->).
  rewrite (drawLoop_accept (999 - i) n rnd buf' bytes (k + i) Hk)
    by (rewrite fillBuf_same_length by congruence; exact Hv).
  rewrite fillBuf_same_length by congruence.
  unfold Int64.MaxInt64 in Hn.
  rewrite (uwrap_small n) by (unfold Uint64.MaxUint64; lia).
  pose proof (Z.mod_pos_bound (binary.LittleEndianUint64 bytes) n ltac:(lia)).
  rewrite wrap_small
    by (unfold Int64.in_range, Int64.MinInt64, Int64.MaxInt64; lia).
  reflexivity.
Qed.

(** A value returned by the loop is the reduction of the first read below
    the threshold; every read before it was rejected. *)
Lemma drawLoop_ok_inv (attempts : nat) (n : Z) (rnd : entropy)
    (buf : list Byte.byte) (k k' : nat) (r : Z) :
  (forall j b, rnd j = ReadOk b -> List.length b = 8%nat) ->
  List.length buf = 8%nat ->
  drawLoop attempts n rnd buf k = (Ok r, k') ->
  exists i bytes,
    (i < attempts)%nat /\ k' = S (k + i) /\ rejects n rnd k i
    /\ rnd (k + i)%nat = ReadOk bytes
    /\ binary.LittleEndianUint64 bytes < limit n
    /\ r = Int64.wrap (binary.LittleEndianUint64 bytes mod Uint64.wrap n).
Proof.
  intros Hrnd. revert buf k.
  induction attempts as [ | attempts IH]; intros buf k Hbuf; cbn [drawLoop].
  - discriminate.
  - destruct (rnd k) as [bytes | ] eqn:Hk; [ | discriminate ].
    pose proof (Hrnd k bytes Hk) as Hlen.
    rewrite fillBuf_same_length by congruence.
    destruct (binary.LittleEndianUint64 bytes <? limit n) eqn:Hv.
    + intros H. injection H as <- <-. apply Z.ltb_lt in Hv.
      exists 0%nat, bytes. rewrite Nat.add_0_r.
      repeat split; try assumption; try lia.
      intros j Hj. lia.
    + intros H. apply Z.ltb_ge in Hv.
      destruct (IH bytes (S k) Hlen H)
        as (i & bytes' & Hi & -> & Hrej & Hk' & Hv' & ->).
      exists (S i), bytes'.
      replace (k + S i)%nat with (S k + i)%nat by lia.
      repeat split; try assumption; try lia.
      intros j Hj. destruct j as [ | j].
      * exists bytes. rewrite Nat.add_0_r. now repeat split.
      * destruct (Hrej j ltac:(lia)) as (b & Hb & Hrest).
        exists b. split; [ | exact Hrest ].
        now replace (k + S j)%nat with (S k + j)%nat by lia.
Qed.

(** C3. For [n > 0], the threshold [limit n] of [cryptoRandInt64] is the
    largest multiple of [n] that fits in 64 bits.  The loop discards every
    source value at or above it and returns the first one below it, reduced
    modulo [n]: a call succeeds exactly through a read that is below the
    threshold after reads that were all rejected.  The accepted source values
    are those below the threshold, and every offset [r] of [[0, n)] has
    exactly [limit n / n] accepted preimages: all offsets are produced by
    equally many source values. *)
Theorem cryptoRandInt64_unbiased (n : Z) :
  0 < n <= Int64.MaxInt64 ->
  (n | limit n)
  /\ limit n <= Uint64.MaxUint64
  /\ (forall m, (n | m) -> m <= Uint64.MaxUint64 -> m <= limit n)
  /\ (forall v, In v (accepted n) <-> 0 <= v < limit n)
  /\ (forall (rnd : entropy) (k : nat) (bytes : list Byte.byte),
        rnd k = ReadOk bytes -> List.length bytes = 8%nat ->
        binary.LittleEndianUint64 bytes < limit n ->
        cryptoRandInt64 n rnd k
        = (Ok (binary.LittleEndianUint64 bytes mod n), S k))
  /\ (forall (rnd : entropy) (k i : nat) (bytes : list Byte.byte),
        (i < 1000)%nat -> rejects n rnd k i ->
        rnd (k + i)%nat = ReadOk bytes -> List.length bytes = 8%nat ->
        binary.LittleEndianUint64 bytes < limit n ->
        cryptoRandInt64 n rnd k
        = (Ok (binary.LittleEndianUint64 bytes mod n), S (k + i)))
  /\ (forall (rnd : entropy) (k k' : nat) (r : Z),
        (forall j b, rnd j = ReadOk b -> List.length b = 8%nat) ->
        cryptoRandInt64 n rnd k = (Ok r, k') ->
        exists i bytes,
          (i < 1000)%nat /\ k' = S (k + i) /\ rejects n rnd k i
          /\ rnd (k + i)%nat = ReadOk bytes
          /\ In (binary.LittleEndianUint64 bytes) (accepted n)
          /\ r = binary.LittleEndianUint64 bytes mod n)
  /\ (forall r, 0 <= r < n ->
        Z.of_nat (List.length (preimages n r)) = limit n / n).
Proof.
  intros Hn.
  assert (Hq : 0 <= Uint64.MaxUint64 / n)
    by (apply Z.div_pos; [ unfold Uint64.MaxUint64 | ]; lia).
  pose proof (Z.mul_div_le Uint64.MaxUint64 n ltac:(lia)) as Hle.
  assert (Hacc : forall v, In v (accepted n) <-> 0 <= v < limit n).
  { intros v. unfold accepted. rewrite In_Zrange.
    rewrite limit_multiple by assumption.
    rewrite Z2Nat.id by lia. lia. }
  assert (Hle0 : forall l, 0 <= binary.LittleEndianUint64 l).
  { induction l as [ | x l IH]; cbn [binary.LittleEndianUint64]; lia. }
  split; [ exists (Uint64.MaxUint64 / n);
           rewrite limit_multiple by assumption; lia | ].
  split; [ rewrite limit_multiple by assumption; exact Hle | ].
  split.
  { intros m [c ->] Hm. rewrite limit_multiple by assumption.
    rewrite (Z.mul_comm n). apply Z.mul_le_mono_nonneg_r; [ lia | ].
    apply Z.div_le_lower_bound; lia. }
  split; [ exact Hacc | ].
  split.
  { intros rnd k bytes Hk Hlen Hv.
    replace (S k) with (S (k + 0)) by (f_equal; lia).
    apply drawLoop_first_accepted; try assumption; try lia.
    - intros j Hj. lia.
    - now rewrite Nat.add_0_r. }
  split.
  { intros rnd k i bytes Hi Hrej Hk Hlen Hv.
    now apply drawLoop_first_accepted. }
  split.
  { intros rnd k k' r Hrnd. unfold cryptoRandInt64.
    replace (n <=? 0) with false by (symmetry; apply Z.leb_gt; lia).
    intros H.
    destruct (drawLoop_ok_inv 1000 n rnd (repeat Byte.x00 8) k k' r Hrnd
                eq_refl H) as (i & bytes & Hi & -> & Hrej & Hk & Hv & ->).
    exists i, bytes. repeat split; try assumption.
    - apply Hacc. split; [ apply Hle0 | exact Hv ].
    - unfold Int64.MaxInt64 in Hn.
      rewrite (uwrap_small n) by (unfold Uint64.MaxUint64; lia).
      pose proof (Z.mod_pos_bound (binary.LittleEndianUint64 bytes) n
                    ltac:(lia)).
      apply wrap_small.
      unfold Int64.in_range, Int64.MinInt64, Int64.MaxInt64; lia. }
  intros r Hr. apply preimages_count; assumption.
Qed.

Lemma cryptoRandInt64_unbiased_witness :
  (6 | limit 6)
  /\ Z.of_nat (List.length (preimages 6 5)) = limit 6 / 6
  /\ cryptoRandInt64 6
       (fun k => match k with
                 | O => ReadOk (repeat Byte.xff 8)
                 | _ => ReadOk [Byte.x25; Byte.x00; Byte.x00; Byte.x00;
                                Byte.x00; Byte.x00; Byte.x00; Byte.x00]
                 end) 0
     = (Ok (37 mod 6), 2%nat).
Proof.
  assert (H6 : 0 < 6 <= Int64.MaxInt64) by (unfold Int64.MaxInt64; lia).
  pose proof (cryptoRandInt64_unbiased 6 H6)
    as (Hdiv & _ & _ & _ & _ & Hdraw & _ & Hcount).
  split; [ exact Hdiv | ]. split; [ apply Hcount; lia | ].
  apply (Hdraw _ 0%nat 1%nat
           [Byte.x25; Byte.x00; Byte.x00; Byte.x00;
            Byte.x00; Byte.x00; Byte.x00; Byte.x00]).
  - lia.
  - intros j Hj. exists (repeat Byte.xff 8).
    replace j with 0%nat by lia.
    split; [ reflexivity | ]. split; [ reflexivity | ].
    vm_compute; discriminate.
  - reflexivity.
  - reflexivity.
  - vm_compute; reflexivity.
Defined.

(** ** The stages of resolution *)

Lemma set_true (s : string) : s <> "" -> negb (s =? "")%string = true.
Proof. intros H. apply negb_true_iff, String.eqb_neq, H. Qed.

Lemma set_false (s : string) : s = "" -> negb (s =? "")%string = false.
Proof. intros ->. reflexivity. Qed.

Lemma not_too_many (pos : list string) :
  (List.length pos <= 2)%nat -> (2 <? List.length pos)%nat = false.
Proof. intros H. apply Nat.ltb_ge, H. Qed.

(** C4, at the input that breaks it.  With [-r 2000000h 2000000h] the base and
    the range both parse to 7.2e18 ns; their sum is not a Duration; the range
    branch returns the wrapped sum as the upper end, and [parseArgs] succeeds
    with the interval (0, 0) where the claim asks for an error. *)
Theorem range_branch_wraps :
  let args := ["-r"; "2000000h"; "2000000h"] in
  let v := flag.mkVars "" "2000000h" "" "" false in
  flag.Parse flag.defaults args = Ok (v, ["2000000h"])
  /\ parseDuration "2000000h" = Ok 7200000000000000000
  /\ ~ Int64.in_range (7200000000000000000 + 7200000000000000000)
  /\ preclamp v ["2000000h"]
     = Ok (0, 0, (0, 7200000000000000000 + 7200000000000000000 - 2 ^ 64))
  /\ parseArgs args = Ok (0, 0, false).
Proof.
  cbv zeta. split; [ vm_compute; reflexivity | ].
  split; [ vm_compute; reflexivity | ].
  split; [ unfold Int64.in_range, Int64.MinInt64, Int64.MaxInt64; lia | ].
  split; vm_compute; reflexivity.
Qed.

(** ** Integers below 2^53 in float64 *)



































(** ** The percent branch *)





Lemma positionalJitterOf_two (pos : list string) :
  List.length pos = 2%nat -> positionalJitterOf pos = nth 1 pos "".
Proof. intros H. unfold positionalJitterOf. now rewrite H. Qed.

Lemma noConflict_check (v : flag.vars) (pos : list string) :
  noConflict v pos -> checkConflicts v pos = Ok tt.
Proof.
  intros [Hjr Hpos]. unfold checkConflicts, positionalJitterOf.
  assert (E1 : negb (v.(flag.jitterStr) =? "")%string
               && negb (v.(flag.rangeStr) =? "")%string = false)
    by (destruct Hjr as [H | H]; rewrite (set_false _ H);
        [ reflexivity | apply andb_false_r ]).
  rewrite E1.
  destruct (List.length pos =? 2)%nat eqn:Hlen; [ | reflexivity ].
  apply Nat.eqb_eq in Hlen.
  destruct (String.eqb_spec (nth 1 pos "") "") as [E | E].
  - reflexivity.
  - destruct (Hpos Hlen E) as [Hj Hr].
    now rewrite (set_false _ Hj), (set_false _ Hr).
Qed.

(** C6. The order in which [resolve] reports errors: too many positionals
    first; then the three conflicts between jitter specifications, in their
    order (named percent with range, a non-empty second positional with the
    named percent, a non-empty second positional with the range), whatever
    the values of the range, min and max flags; then the parse errors of
    range, min and max, in that order; then max below min, whatever the base
    token; then the parse error of the base; and the clamp with its
    empty-interval check only once all of this has succeeded. *)
Theorem error_precedence (v : flag.vars) (pos : list string) :
  ((2 < List.length pos)%nat -> resolve v pos = Err ErrTooManyPositional)
  /\ ((List.length pos <= 2)%nat ->
      v.(flag.jitterStr) <> "" -> v.(flag.rangeStr) <> "" ->
      resolve v pos = Err ErrJitterWithRange)
  /\ (List.length pos = 2%nat -> nth 1 pos "" <> "" ->
      v.(flag.jitterStr) <> "" -> v.(flag.rangeStr) = "" ->
      resolve v pos = Err ErrJitterTwice)
  /\ (List.length pos = 2%nat -> nth 1 pos "" <> "" ->
      v.(flag.rangeStr) <> "" -> v.(flag.jitterStr) = "" ->
      resolve v pos = Err ErrPositionalWithRange)
  /\ ((List.length pos <= 2)%nat -> noConflict v pos ->
      forall e, v.(flag.rangeStr) <> "" ->
      parseDuration v.(flag.rangeStr) = Err e ->
      resolve v pos = Err e)
  /\ ((List.length pos <= 2)%nat -> noConflict v pos ->
      forall rangeVal e,
      (v.(flag.rangeStr) = "" \/ parseDuration v.(flag.rangeStr) = Ok rangeVal) ->
      v.(flag.minStr) <> "" -> parseDuration v.(flag.minStr) = Err e ->
      resolve v pos = Err e)
  /\ ((List.length pos <= 2)%nat -> noConflict v pos ->
      forall rangeVal minVal e,
      (v.(flag.rangeStr) = "" \/ parseDuration v.(flag.rangeStr) = Ok rangeVal) ->
      (v.(flag.minStr) = "" \/ parseDuration v.(flag.minStr) = Ok minVal) ->
      v.(flag.maxStr) <> "" -> parseDuration v.(flag.maxStr) = Err e ->
      resolve v pos = Err e)
  /\ ((List.length pos <= 2)%nat -> noConflict v pos ->
      forall rangeVal minVal maxVal,
      (v.(flag.rangeStr) = "" \/ parseDuration v.(flag.rangeStr) = Ok rangeVal) ->
      v.(flag.minStr) <> "" -> parseDuration v.(flag.minStr) = Ok minVal ->
      v.(flag.maxStr) <> "" -> parseDuration v.(flag.maxStr) = Ok maxVal ->
      maxVal < minVal ->
      resolve v pos = Err ErrMaxBelowMin)
  /\ ((1 <= List.length pos <= 2)%nat -> noConflict v pos ->
      forall rangeVal minVal maxVal e,
      (v.(flag.rangeStr) = "" \/ parseDuration v.(flag.rangeStr) = Ok rangeVal) ->
      (v.(flag.minStr) = "" \/ parseDuration v.(flag.minStr) = Ok minVal) ->
      (v.(flag.maxStr) = "" \/ parseDuration v.(flag.maxStr) = Ok maxVal) ->
      (v.(flag.minStr) <> "" -> v.(flag.maxStr) <> "" -> minVal <= maxVal) ->
      parseDuration (nth 0 pos "") = Err e ->
      resolve v pos = Err e)
  /\ (forall e, preclamp v pos = Err e -> resolve v pos = Err e)
  /\ (forall minVal maxVal iv, preclamp v pos = Ok (minVal, maxVal, iv) ->
      resolve v pos
      = if snd (clamp v minVal maxVal iv) <? fst (clamp v minVal maxVal iv)
        then Err ErrEmptyInterval
        else Ok (fst (clamp v minVal maxVal iv),
                 snd (clamp v minVal maxVal iv), v.(flag.verbose))).
Proof.
  assert (Hflag : forall str x,
             str = "" \/ parseDuration str = Ok x ->
             exists y, parseFlagDuration str = Ok y /\ (str <> "" -> y = x)).
  { intros str x [-> | H].
    - exists 0. split; [ reflexivity | intros F; now elim F ].
    - exists (if negb (str =? "")%string then x else 0).
      unfold parseFlagDuration.
      destruct (String.eqb_spec str "") as [-> | Hne]; cbn [negb];
        [ split; [ reflexivity | intros F; now elim F ] | now split ]. }
  unfold resolve, preclamp.
  split; [ intros H; apply Nat.ltb_lt in H; now rewrite H | ].
  split; [ intros H Hj Hr; rewrite (not_too_many _ H); unfold checkConflicts;
           now rewrite (set_true _ Hj), (set_true _ Hr) | ].
  split; [ intros H Hp Hj Hr; rewrite (not_too_many pos ltac:(lia));
           unfold checkConflicts; rewrite (positionalJitterOf_two _ H);
           now rewrite (set_true _ Hj), (set_false _ Hr), (set_true _ Hp) | ].
  split; [ intros H Hp Hr Hj; rewrite (not_too_many pos ltac:(lia));
           unfold checkConflicts; rewrite (positionalJitterOf_two _ H);
           now rewrite (set_false _ Hj), (set_true _ Hr), (set_true _ Hp) | ].
  split; [ intros H Hc e Hr He;
           rewrite (not_too_many _ H), (noConflict_check _ _ Hc);
           unfold parseBounds, parseFlagDuration, bind;
           now rewrite (set_true _ Hr), He | ].
  split; [ intros H Hc rv e Hr Hm He;
           rewrite (not_too_many _ H), (noConflict_check _ _ Hc);
           destruct (Hflag _ _ Hr) as (rv' & Hr' & _);
           unfold parseBounds, bind; rewrite Hr';
           unfold parseFlagDuration;
           now rewrite (set_true _ Hm), He | ].
  split; [ intros H Hc rv mn e Hr Hm Hx He;
           rewrite (not_too_many _ H), (noConflict_check _ _ Hc);
           destruct (Hflag _ _ Hr) as (rv' & Hr' & _);
           destruct (Hflag _ _ Hm) as (mn' & Hm' & _);
           unfold parseBounds, bind; rewrite Hr', Hm';
           unfold parseFlagDuration;
           now rewrite (set_true _ Hx), He | ].
  split; [ intros H Hc rv mn mx Hr Hm Hmn Hx Hmx Hlt;
           rewrite (not_too_many _ H), (noConflict_check _ _ Hc);
           destruct (Hflag _ _ Hr) as (rv' & Hr' & _);
           unfold parseBounds, bind; rewrite Hr';
           unfold parseFlagDuration;
           rewrite (set_true _ Hm), (set_true _ Hx), Hmn, Hmx;
           apply Z.ltb_lt in Hlt; now rewrite Hlt | ].
  split.
  { intros H Hc rv mn mx e Hr Hm Hx Hord He.
    rewrite (not_too_many _ (proj2 H)), (noConflict_check _ _ Hc).
    destruct (Hflag _ _ Hr) as (rv' & Hr' & _).
    destruct (Hflag _ _ Hm) as (mn' & Hm' & Hmn).
    destruct (Hflag _ _ Hx) as (mx' & Hx' & Hmx).
    unfold parseBounds, bind. rewrite Hr', Hm', Hx'.
    replace (negb (v.(flag.minStr) =? "")%string
             && negb (v.(flag.maxStr) =? "")%string && (mx' <? mn'))
      with false.
    2:{ symmetry.
        destruct (String.eqb_spec v.(flag.minStr) "") as [ | Hn1];
          [ reflexivity | ].
        destruct (String.eqb_spec v.(flag.maxStr) "") as [ | Hn2];
          [ reflexivity | ].
        cbn [negb andb]. apply Z.ltb_ge.
        rewrite (Hmn Hn1), (Hmx Hn2). now apply Hord. }
    unfold parseBase.
    replace ((List.length pos =? 1)%nat || (List.length pos =? 2)%nat)
      with true
      by (symmetry; apply orb_true_iff;
          destruct (Nat.eq_dec (List.length pos) 1) as [-> | Hne];
          [ left; reflexivity | right; apply Nat.eqb_eq; lia ]).
    unfold bind. now rewrite He. }
  fold (preclamp v pos).
  split; [ intros e He; now rewrite He | ].
  intros mn mx iv Hp. rewrite Hp. unfold bind.
  destruct (clamp v mn mx iv) as [low high]. reflexivity.
Qed.

Lemma error_precedence_witness :
  resolve (flag.mkVars "x%" "2w" "zz" "q" false) ["a"; "b"; "c"]
  = Err ErrTooManyPositional
  /\ resolve (flag.mkVars "x%" "2w" "zz" "q" false) ["a"; "b"]
     = Err ErrJitterWithRange
  /\ resolve (flag.mkVars "20%" "" "zz" "q" false) ["10s"; "30%"]
     = Err ErrJitterTwice
  /\ resolve (flag.mkVars "" "2s" "zz" "q" false) ["10s"; "30%"]
     = Err ErrPositionalWithRange
  /\ resolve (flag.mkVars "" "" "10s" "5s" false) ["a"]
     = Err ErrMaxBelowMin
  /\ (exists e, parseDuration "2w" = Err e
        /\ resolve (flag.mkVars "" "2w" "zz" "q" false) ["a"] = Err e)
  /\ (exists e, parseDuration "zz" = Err e
        /\ resolve (flag.mkVars "" "2s" "zz" "q" false) ["a"] = Err e)
  /\ (exists e, parseDuration "q" = Err e
        /\ resolve (flag.mkVars "" "2s" "1s" "q" false) ["a"] = Err e)
  /\ (exists e, parseDuration "a" = Err e
        /\ resolve (flag.mkVars "" "2s" "1s" "5s" false) ["a"] = Err e).
Proof.
  split; [ | split; [ | split; [ | split; [ | split; [ | split; [ | split;
    [ | split ] ] ] ] ] ] ].
  - apply (proj1 (error_precedence
                    (flag.mkVars "x%" "2w" "zz" "q" false) ["a"; "b"; "c"])).
    simpl; lia.
  - apply (proj1 (proj2 (error_precedence
                    (flag.mkVars "x%" "2w" "zz" "q" false) ["a"; "b"]))).
    + simpl; lia.
    + discriminate.
    + discriminate.
  - apply (proj1 (proj2 (proj2 (error_precedence
                    (flag.mkVars "20%" "" "zz" "q" false) ["10s"; "30%"])))).
    + reflexivity.
    + discriminate.
    + discriminate.
    + reflexivity.
  - apply (proj1 (proj2 (proj2 (proj2 (error_precedence
                    (flag.mkVars "" "2s" "zz" "q" false) ["10s"; "30%"]))))).
    + reflexivity.
    + discriminate.
    + discriminate.
    + reflexivity.
  - apply (proj1 (proj2 (proj2 (proj2 (proj2 (proj2 (proj2 (proj2
             (error_precedence
                (flag.mkVars "" "" "10s" "5s" false) ["a"])))))))))
      with (rangeVal := 0) (minVal := 10 * time.Second)
           (maxVal := 5 * time.Second).
    + simpl; lia.
    + split; [ now left | intros H; discriminate H ].
    + now left.
    + discriminate.
    + vm_compute; reflexivity.
    + discriminate.
    + vm_compute; reflexivity.
    + vm_compute; reflexivity.
  - eexists. split; [ vm_compute; reflexivity | ].
    apply (proj1 (proj2 (proj2 (proj2 (proj2 (error_precedence
             (flag.mkVars "" "2w" "zz" "q" false) ["a"])))))).
    + simpl; lia.
    + split; [ now left | intros H; discriminate H ].
    + discriminate.
    + vm_compute; reflexivity.
  - eexists. split; [ vm_compute; reflexivity | ].
    apply (proj1 (proj2 (proj2 (proj2 (proj2 (proj2 (error_precedence
             (flag.mkVars "" "2s" "zz" "q" false) ["a"])))))))
      with (rangeVal := 2 * time.Second).
    + simpl; lia.
    + split; [ now left | intros H; discriminate H ].
    + right. vm_compute; reflexivity.
    + discriminate.
    + vm_compute; reflexivity.
  - eexists. split; [ vm_compute; reflexivity | ].
    apply (proj1 (proj2 (proj2 (proj2 (proj2 (proj2 (proj2 (error_precedence
             (flag.mkVars "" "2s" "1s" "q" false) ["a"]))))))))
      with (rangeVal := 2 * time.Second) (minVal := 1 * time.Second).
    + simpl; lia.
    + split; [ now left | intros H; discriminate H ].
    + right. vm_compute; reflexivity.
    + right. vm_compute; reflexivity.
    + discriminate.
    + vm_compute; reflexivity.
  - eexists. split; [ vm_compute; reflexivity | ].
    apply (proj1 (proj2 (proj2 (proj2 (proj2 (proj2 (proj2 (proj2 (proj2
             (error_precedence
                (flag.mkVars "" "2s" "1s" "5s" false) ["a"]))))))))))
      with (rangeVal := 2 * time.Second) (minVal := 1 * time.Second)
           (maxVal := 5 * time.Second).
    + simpl; lia.
    + split; [ now left | intros H; discriminate H ].
    + right. vm_compute; reflexivity.
    + right. vm_compute; reflexivity.
    + right. vm_compute; reflexivity.
    + intros _ _. vm_compute. discriminate.
    + vm_compute; reflexivity.
Defined.

(** ** Strings *)

Lemma length_append (a b : string) :
  length (a ++ b) = (length a + length b)%nat.
Proof. induction a as [ | c a IH]; simpl; [ reflexivity | now rewrite IH ]. Qed.

Lemma drop_append (a b : string) : drop (length a) (a ++ b) = b.
Proof. induction a as [ | c a IH]; simpl; [ now destruct b | exact IH ]. Qed.

Lemma take_append (a b : string) : take (length a) (a ++ b) = a.
Proof. induction a as [ | c a IH]; simpl; [ reflexivity | now rewrite IH ]. Qed.

Lemma take_drop (n : nat) (s : string) : take n s ++ drop n s = s.
Proof.
  revert s. induction n as [ | n IH]; intros s; simpl.
  - reflexivity.
  - destruct s as [ | c s]; simpl; [ reflexivity | now rewrite IH ].
Qed.

Lemma HasSuffix_append (t suffix : string) :
  strings.HasSuffix (t ++ suffix) suffix = true.
Proof.
  unfold strings.HasSuffix. rewrite length_append.
  replace (length t + length suffix - length suffix)%nat with (length t) by lia.
  rewrite drop_append, String.eqb_refl, andb_true_r.
  apply Nat.leb_le. lia.
Qed.

Lemma TrimSuffix_append (t suffix : string) :
  strings.TrimSuffix (t ++ suffix) suffix = t.
Proof.
  unfold strings.TrimSuffix. rewrite HasSuffix_append, length_append.
  replace (length t + length suffix - length suffix)%nat with (length t) by lia.
  apply take_append.
Qed.

(** A string with the suffix is its trimmed part followed by the suffix. *)
Lemma HasSuffix_split (s suffix : string) :
  strings.HasSuffix s suffix = true ->
  s = strings.TrimSuffix s suffix ++ suffix.
Proof.
  intros H. unfold strings.TrimSuffix. rewrite H.
  unfold strings.HasSuffix in H. apply andb_true_iff in H as [_ H].
  apply String.eqb_eq in H.
  transitivity (take (length s - length suffix) s
                ++ drop (length s - length suffix) s).
  - symmetry. apply take_drop.
  - now rewrite H.
Qed.

Lemma drop_to_last (c : ascii) (s : string) :
  drop (length s) (String c s) = String (lastByte (String c s)) "".
Proof.
  revert c. induction s as [ | d s IH]; intros c.
  - reflexivity.
  - change (drop (length s) (String d s) = String (lastByte (String d s)) "").
    apply IH.
Qed.

(** A one-byte suffix is the last byte. *)
Lemma HasSuffix_byte (c d : ascii) (s : string) :
  strings.HasSuffix (String c s) (String d "")
  = Ascii.eqb (lastByte (String c s)) d.
Proof.
  unfold strings.HasSuffix.
  change (length (String d "")) with 1%nat.
  change (length (String c s)) with (S (length s)).
  replace (S (length s) - 1)%nat with (length s) by lia.
  rewrite drop_to_last. cbn [Nat.leb andb String.eqb].
  now destruct (Ascii.eqb (lastByte (String c s)) d).
Qed.

Lemma lastByte_append (s u : string) :
  u <> "" -> lastByte (s ++ u) = lastByte u.
Proof.
  intros Hu. induction s as [ | c s IH]; [ reflexivity | ].
  change (lastByte (String c (s ++ u)) = lastByte u).
  destruct (s ++ u) eqn:E.
  - destruct s; [ simpl in E; contradiction | discriminate ].
  - rewrite <- IH. reflexivity.
Qed.


(** ** Integer literals in [time.ParseDuration] *)



Lemma leadingInt_length (s r : string) (x v : Z) :
  time.leadingInt x s = Some (v, r) -> (length r <= length s)%nat.
Proof.
  revert x. induction s as [ | c s IH]; intros x; cbn [time.leadingInt].
  - intros H. injection H as _ <-. lia.
  - destruct (negb (isDecimal c)).
    + intros H. injection H as _ <-. lia.
    + destruct (2 ^ 63 / 10 <? x); [ discriminate | ].
      destruct (2 ^ 63 <? x * 10 + (byteVal c - 48)); [ discriminate | ].
      intros H. apply IH in H. cbn [length]. lia.
Qed.

Lemma leadingFraction_length (s r : string) (x f : Z) (sc sc' : float) (o : bool) :
  time.leadingFraction x sc o s = (f, sc', r) -> (length r <= length s)%nat.
Proof.
  revert x sc o. induction s as [ | c s IH]; intros x sc o;
    cbn [time.leadingFraction].
  - intros H. injection H as _ _ <-. lia.
  - destruct (negb (isDecimal c)).
    + intros H. injection H as _ _ <-. lia.
    + cbn [length].
      destruct o; [ intros H; apply IH in H; lia | ].
      destruct ((2 ^ 63 - 1) / 10 <? x); [ intros H; apply IH in H; lia | ].
      destruct (2 ^ 63 <? x * 10 + (byteVal c - 48));
        intros H; apply IH in H; lia.
Qed.

Lemma unitPrefix_length (s u r : string) :
  time.unitPrefix s = (u, r) -> length s = (length u + length r)%nat.
Proof.
  revert u. induction s as [ | c s IH]; intros u; cbn [time.unitPrefix].
  - intros H. injection H as <- <-. reflexivity.
  - destruct (Ascii.eqb c "." || isDecimal c).
    + intros H. injection H as <- <-. reflexivity.
    + destruct (time.unitPrefix s) as [u0 r0].
      intros H. injection H as <- <-. cbn [length].
      now rewrite (IH u0 eq_refl).
Qed.

Lemma parseLoop_fuel (fuel fuel' : nat) (orig s : string) (d : Z) :
  (length s <= fuel)%nat -> (length s <= fuel')%nat ->
  time.parseLoop fuel orig s d = time.parseLoop fuel' orig s d.
Proof.
  revert fuel' s d. induction fuel as [ | fuel IH]; intros fuel' s d H H'.
  - destruct s; [ now destruct fuel' | cbn [length] in H; lia ].
  - destruct s as [ | c s]; [ now destruct fuel' | ].
    destruct fuel' as [ | fuel']; [ cbn [length] in H'; lia | ].
    cbn [time.parseLoop].
    destruct (negb (Ascii.eqb c "." || isDecimal c)); [ reflexivity | ].
    destruct (time.leadingInt 0 (String c s)) as [[v s1] | ] eqn:Hint;
      [ | reflexivity ].
    apply leadingInt_length in Hint.
    destruct (time.fractionPart s1) as [[[f scale] s2] post] eqn:Hfrac.
    assert (Hs2 : (length s2 <= length s1)%nat).
    { unfold time.fractionPart in Hfrac. destruct s1 as [ | c1 s1'].
      - injection Hfrac as _ _ <- _. lia.
      - destruct (Ascii.eqb c1 ".").
        + destruct (time.leadingFraction 0 1 false s1') as [[f0 sc0] r0] eqn:Hlf.
          injection Hfrac as _ _ <- _.
          apply leadingFraction_length in Hlf. cbn [length]. lia.
        + injection Hfrac as _ _ <- _. lia. }
    destruct (negb (negb (length (String c s) =? length s1)%nat) && negb post);
      [ reflexivity | ].
    destruct (time.unitPrefix s2) as [u s3] eqn:Hu.
    apply unitPrefix_length in Hu.
    destruct (length u =? 0)%nat eqn:Hlen; [ reflexivity | ].
    apply Nat.eqb_neq in Hlen.
    destruct (time.unitMap u) as [unit | ]; [ | reflexivity ].
    repeat match goal with
           | |- (if ?b then Err _ else _) = _ => destruct b; [ reflexivity | ]
           end.
    cbn [length] in H, H', Hint.
    apply IH; lia.
Qed.

(** [length s] rounds are enough for [time.ParseDuration]: every larger
    bound gives the same result. *)
Lemma ParseDuration_fuel (fuel : nat) (s : string) (d : Z) :
  (length s <= fuel)%nat ->
  time.parseLoop fuel s s d = time.parseLoop (length s) s s d.
Proof. intros H. apply parseLoop_fuel; lia. Qed.


Lemma digit_not (c d : ascii) :
  isDecimal c = true -> isDecimal d = false -> Ascii.eqb c d = false.
Proof.
  intros Hc Hd. destruct (Ascii.eqb_spec c d) as [-> | ]; [ | reflexivity ].
  rewrite Hc in Hd. discriminate.
Qed.






(** ** Days *)

(** C8, at the input that breaks it.  The numeric part of
    ["106751.99116730064d"] parses to [maxDays] itself, which the range check
    lets through (it rejects only what is above [maxDays]); the product with
    the nanoseconds of a day is the float 2^63, one more than the largest
    Duration.  No error is returned: the result is the conversion of 2^63 to
    [int64], which the language leaves to the implementation and which is
    [MinInt64] on amd64.  The examples of the claim hold: ["2d"] is 48 hours,
    ["0.5d"] is 12 hours and ["1e308d"] is out of range. *)
Theorem days_boundary_overflow :
  strconv.ParseFloat "106751.99116730064" = Ok maxDays
  /\ (maxDays <? maxDays)%float || (maxDays <? - maxDays)%float = false
  /\ Float64.trunc (maxDays * Float64.of_Z day)%float = Some (2 ^ 63)
  /\ ~ Int64.in_range (2 ^ 63)
  /\ parseDuration "106751.99116730064d"
     = Ok (Float64.to_int64 (maxDays * Float64.of_Z day)%float)
  /\ parseDuration "106751.99116730064d" = Ok Int64.MinInt64
  /\ parseDuration "2d" = Ok (48 * time.Hour)
  /\ parseDuration "0.5d" = Ok (12 * time.Hour)
  /\ parseDuration "1e308d" = Err (ErrDurationOutOfRange "1e308d").
Proof.
  split; [ vm_compute; reflexivity | ].
  split; [ vm_compute; reflexivity | ].
  split; [ vm_compute; reflexivity | ].
  split; [ unfold Int64.in_range, Int64.MinInt64, Int64.MaxInt64; lia | ].
  repeat split; vm_compute; reflexivity.
Qed.

(** ** Percentages *)

(** The test [val < 0] of the code lets through the floats that are at or
    above zero, and the NaN. *)
Lemma not_below_zero (v : float) :
  (v <? 0)%float = false
  <-> (0 <=? v)%float = true \/ Float64.IsNaN v = true.
Proof.
  unfold Float64.IsNaN, is_nan.
  rewrite FloatAxioms.ltb_spec, FloatAxioms.leb_spec, FloatAxioms.eqb_spec.
  change (Prim2SF 0) with (S754_zero false).
  destruct (Prim2SF v) as [s | s | | s m e]; try destruct s; cbn.
  all: try (split; [ intros _; now left | reflexivity ]).
  all: try (split; [ intros _; now right | reflexivity ]).
  all: try (split; [ discriminate | intros [H | H]; discriminate ]).
  all: rewrite Z.compare_refl;
    change (PosDef.Pos.compare_cont Eq m m) with (Pos.compare m m);
    rewrite Pos.compare_refl; cbn.
  all: try (split; [ intros _; now left | reflexivity ]).
  all: try (split; [ discriminate | intros [H | H]; discriminate ]).
Qed.

(** C9, as the code has it.  [parsePercent] succeeds exactly on the inputs
    [t%] where [t] parses as a float that is at or above zero (a negative zero
    included) or is the NaN, and then returns that float divided by 100;
    without a trailing [%] it fails with "percent must end with %", with a
    prefix that does not parse it fails with "invalid percent", and with a
    prefix below zero it fails with "jitter cannot be negative". *)
Theorem parsePercent_spec (s : string) :
  (forall x, parsePercent s = Ok x <->
     exists t v, s = t ++ "%" /\ strconv.ParseFloat t = Ok v
                 /\ ((0 <=? v)%float = true \/ Float64.IsNaN v = true)
                 /\ x = (v / 100)%float)
  /\ ((forall t, s <> t ++ "%") -> parsePercent s = Err (ErrPercentSuffix s))
  /\ (forall t e, s = t ++ "%" -> strconv.ParseFloat t = Err e ->
        parsePercent s = Err (ErrInvalidPercent s))
  /\ (forall t v, s = t ++ "%" -> strconv.ParseFloat t = Ok v ->
        (v <? 0)%float = true -> parsePercent s = Err ErrNegativeJitter).
Proof.
  split; [ | split; [ | split ] ].
  - intros x. unfold parsePercent. split.
    + destruct (strings.HasSuffix s "%") eqn:Hsuf; [ | discriminate ].
      cbn [negb].
      destruct (strconv.ParseFloat (strings.TrimSuffix s "%")) as [v | e]
        eqn:Hpf; [ | discriminate ].
      destruct (v <? 0)%float eqn:Hneg; [ discriminate | ].
      intros H. injection H as <-.
      exists (strings.TrimSuffix s "%"), v.
      split; [ apply HasSuffix_split; exact Hsuf | ].
      split; [ exact Hpf | ].
      split; [ apply not_below_zero; exact Hneg | reflexivity ].
    + intros (t & v & -> & Hpf & Hneg & ->).
      apply not_below_zero in Hneg.
      now rewrite HasSuffix_append, TrimSuffix_append, Hpf, Hneg.
  - intros Hno. unfold parsePercent.
    destruct (strings.HasSuffix s "%") eqn:Hsuf; [ | reflexivity ].
    apply HasSuffix_split in Hsuf. now apply Hno in Hsuf.
  - intros t e -> Hpf. unfold parsePercent.
    now rewrite HasSuffix_append, TrimSuffix_append, Hpf.
  - intros t v -> Hpf Hneg. unfold parsePercent.
    now rewrite HasSuffix_append, TrimSuffix_append, Hpf, Hneg.
Qed.

Lemma parsePercent_spec_witness :
  parsePercent "25%" = Ok 0.25%float
  /\ parsePercent "NaN%" = Ok (nan / 100)%float
  /\ parsePercent "-10%" = Err ErrNegativeJitter
  /\ parsePercent "abc%" = Err (ErrInvalidPercent "abc%")
  /\ parsePercent "50" = Err (ErrPercentSuffix "50").
Proof.
  split; [ | split; [ | split; [ | split ] ] ].
  - apply (proj2 (proj1 (parsePercent_spec "25%") 0.25%float)).
    exists "25", 25%float.
    split; [ reflexivity | ]. split; [ vm_compute; reflexivity | ].
    split; [ left; vm_compute; reflexivity | vm_compute; reflexivity ].
  - apply (proj2 (proj1 (parsePercent_spec "NaN%") (nan / 100)%float)).
    exists "NaN", nan.
    split; [ reflexivity | ]. split; [ vm_compute; reflexivity | ].
    split; [ right; vm_compute; reflexivity | reflexivity ].
  - apply (proj2 (proj2 (proj2 (parsePercent_spec "-10%"))) "-10" (-10)%float);
      vm_compute; reflexivity.
  - apply (proj1 (proj2 (proj2 (parsePercent_spec "abc%"))) "abc" ErrSyntax);
      vm_compute; reflexivity.
  - apply (proj1 (proj2 (parsePercent_spec "50"))).
    intros t E.
    assert (H : strings.HasSuffix "50" "%" = true)
      by (rewrite E; apply HasSuffix_append).
    vm_compute in H. discriminate.
Defined.

(** C9 as stated fails: the prefix of ["NaN%"] parses as the NaN, which is
    not at or above zero, and [parsePercent] accepts the input. *)
Lemma parsePercent_nan_counterexample :
  strconv.ParseFloat "NaN" = Ok nan
  /\ (0 <=? nan)%float = false
  /\ isOk (parsePercent "NaN%") = true
  /\ ~ (forall s x, parsePercent s = Ok x ->
         exists t v, s = t ++ "%" /\ strconv.ParseFloat t = Ok v
                     /\ (0 <=? v)%float = true /\ x = (v / 100)%float).
Proof.
  split; [ vm_compute; reflexivity | ].
  split; [ vm_compute; reflexivity | ].
  split; [ vm_compute; reflexivity | ].
  intros H.
  destruct (H "NaN%" (nan / 100)%float) as (t & v & Ht & Hpf & Hv & _).
  { vm_compute. reflexivity. }
  assert (Et : t = "NaN").
  { rewrite <- (TrimSuffix_append t "%"), <- Ht. reflexivity. }
  subst t.
  assert (Ev : strconv.ParseFloat "NaN" = Ok nan) by (vm_compute; reflexivity).
  rewrite Ev in Hpf. injection Hpf as <-.
  vm_compute in Hv. discriminate.
Qed.

(** ** Flags given an empty value *)

Lemma formal_names (name : string) (t : flag.target) :
  flag.formal name = Some t -> t <> flag.Verbose ->
  In name ["jitter"; "j"; "range"; "r"; "min"; "m"; "max"; "M"].
Proof.
  unfold flag.formal. intros H Ht.
  repeat match type of H with
         | context [ (name =? ?lit)%string ] =>
             destruct (String.eqb_spec name lit) as [-> | _];
             [ simpl in H; injection H as <-;
               first [ contradiction | simpl; tauto ]
             | cbn [orb] in H ]
         end.
  discriminate.
Qed.

(** C10. A string flag given the empty string leaves its variable at the
    default, which is what [resolve] reads as "not set": whatever follows,
    [-name ""], [--name ""], [-name=] and [--name=] in front of the arguments
    give the result of the arguments without them.  So [--jitter ""] raises no
    format error and the default jitter of 50% applies, and [--min ""] clamps
    nothing. *)
Theorem empty_flag_is_absent :
  (forall (name : string) (t : flag.target) (rest : list string),
      flag.formal name = Some t -> t <> flag.Verbose ->
      parseArgs (("-" ++ name) :: "" :: rest) = parseArgs rest
      /\ parseArgs (("--" ++ name) :: "" :: rest) = parseArgs rest
      /\ parseArgs (("-" ++ name ++ "=") :: rest) = parseArgs rest
      /\ parseArgs (("--" ++ name ++ "=") :: rest) = parseArgs rest)
  /\ (forall (name : string) (t : flag.target) (v : flag.vars)
             (rest : list string),
        flag.formal name = Some t -> t <> flag.Verbose ->
        flag.getString t v = "" ->
        flag.Parse v (("-" ++ name) :: "" :: rest) = flag.Parse v rest
        /\ flag.Parse v (("--" ++ name) :: "" :: rest) = flag.Parse v rest
        /\ flag.Parse v (("-" ++ name ++ "=") :: rest) = flag.Parse v rest
        /\ flag.Parse v (("--" ++ name ++ "=") :: rest) = flag.Parse v rest)
  /\ parseArgs ["--jitter"; ""; "10s"]
     = Ok (5 * time.Second, 15 * time.Second, false)
  /\ parseArgs ["--jitter"; ""; "10s"] = parseArgs ["10s"]
  /\ parseArgs ["--min"; ""; "10s"] = parseArgs ["10s"].
Proof.
  split; [ | split; [ | repeat split; vm_compute; reflexivity ] ].
  - intros name t rest Hf Ht.
    pose proof (formal_names name t Hf Ht) as Hin. cbn [In] in Hin.
    unfold parseArgs.
    repeat (destruct Hin as [<- | Hin]; [ repeat split; reflexivity | ]).
    contradiction.
  - intros name t v rest Hf Ht Hv.
    pose proof (formal_names name t Hf Ht) as Hin. cbn [In] in Hin.
    destruct v as [j r mn mx vb].
    repeat (destruct Hin as [<- | Hin];
            [ cbn in Hf; injection Hf as <-; cbn in Hv; subst;
              repeat split; reflexivity
            | ]).
    contradiction.
Qed.

Lemma empty_flag_is_absent_witness :
  parseArgs ["-r"; ""; "-j"; "20%"; "10s"] = parseArgs ["-j"; "20%"; "10s"].
Proof.
  apply (proj1 (proj1 empty_flag_is_absent "r" flag.Range
                  ["-j"; "20%"; "10s"] eq_refl ltac:(discriminate))).
Defined.

(** ** The tests of the repository

    The tables of [TestParseDuration], [TestParsePercent] and [TestParseArgs],
    evaluated on the embedding. *)

Lemma TestParseDuration :
  map parseDuration ["5"; "100"; "100ms"; "1m"; "1h"; "2d"; "0.5d"; "1.5h"]
  = map Ok [5 * time.Second; 100 * time.Second; 100 * time.Millisecond;
            time.Minute; time.Hour; 48 * time.Hour; 12 * time.Hour;
            90 * time.Minute]
  /\ map (fun s => isOk (parseDuration s)) [""; "abc"; "d"; "1e308d"; "-1e308d"]
     = [false; false; false; false; false].
Proof. split; vm_compute; reflexivity. Qed.

Lemma TestParsePercent :
  map parsePercent ["25%"; "0%"; "100%"; "50%"; "12.5%"]
  = map Ok [0.25; 0; 1; 0.5; 0.125]%float
  /\ map (fun s => isOk (parsePercent s)) ["50"; "-10%"; "abc%"; "%"]
     = [false; false; false; false].
Proof. split; vm_compute; reflexivity. Qed.

Lemma TestParseArgs :
  map parseArgs
    [ ["10s"]; ["-j"; "20%"; "10s"]; ["10s"; "20%"]; ["-r"; "2s"; "10s"];
      ["--min"; "5s"; "--max"; "15s"]; ["-j"; "0%"; "10s"] ]
  = map Ok
      [ (5 * time.Second, 15 * time.Second, false);
        (8 * time.Second, 12 * time.Second, false);
        (8 * time.Second, 12 * time.Second, false);
        (8 * time.Second, 12 * time.Second, false);
        (5 * time.Second, 15 * time.Second, false);
        (10 * time.Second, 10 * time.Second, false) ]
  /\ map (fun args => isOk (parseArgs args))
       [ []; ["-j"; "20%"; "-r"; "2s"; "10s"]; ["--min"; "10s"; "--max"; "5s"];
         ["-j"; "20%"; "10s"; "30%"]; ["-r"; "2s"];
         ["--min"; "10s"; "--max"; "5s"; "10s"] ]
     = [false; false; false; false; false; false].
Proof. split; vm_compute; reflexivity. Qed.

(** * Further properties of the program *)

(** ** Durations stay within 64 bits *)

Lemma in_range_0 : Int64.in_range 0.
Proof. unfold Int64.in_range, Int64.MinInt64, Int64.MaxInt64. lia. Qed.

Lemma to_int64_in_range (x : float) : Int64.in_range (Float64.to_int64 x).
Proof.
  unfold Float64.to_int64.
  assert (Hmin : Int64.in_range Int64.MinInt64)
    by (unfold Int64.in_range, Int64.MinInt64, Int64.MaxInt64; lia).
  destruct (Float64.trunc x) as [z | ]; [ | exact Hmin ].
  destruct ((Int64.MinInt64 <=? z) && (z <=? Int64.MaxInt64)) eqn:E;
    [ | exact Hmin ].
  apply andb_true_iff in E as [E1 E2].
  apply Z.leb_le in E1. apply Z.leb_le in E2. split; assumption.
Qed.

Lemma ParseDuration_in_range (s : string) (d : Z) :
  time.ParseDuration s = Ok d -> Int64.in_range d.
Proof.
  unfold time.ParseDuration.
  destruct (match s with
            | EmptyString => (false, s)
            | String c s' =>
                if Ascii.eqb c "-" || Ascii.eqb c "+"
                then (Ascii.eqb c "-", s') else (false, s)
            end) as [neg s0].
  destruct (s0 =? "0")%string;
    [ intros H; injection H as <-; apply in_range_0 | ].
  destruct (s0 =? "")%string; [ discriminate | ].
  unfold bind. destruct (time.parseLoop (length s0) s s0 0) as [d0 | e];
    [ | discriminate ].
  destruct neg.
  - intros H. injection H as <-. apply wrap_in_range.
  - destruct (2 ^ 63 - 1 <? d0); [ discriminate | ].
    intros H. injection H as <-. apply wrap_in_range.
Qed.

Lemma parseDuration_in_range (s : string) (d : Z) :
  parseDuration s = Ok d -> Int64.in_range d.
Proof.
  unfold parseDuration.
  destruct (s =? "")%string; [ discriminate | ].
  destruct (strings.HasSuffix s "d").
  - destruct (strconv.ParseFloat (strings.TrimSuffix s "d")) as [num | e];
      [ | discriminate ].
    destruct ((maxDays <? num)%float || (num <? - maxDays)%float);
      [ discriminate | ].
    intros H. injection H as <-. apply to_int64_in_range.
  - apply ParseDuration_in_range.
Qed.

Lemma parseFlagDuration_in_range (str : string) (d : Z) :
  parseFlagDuration str = Ok d -> Int64.in_range d.
Proof.
  unfold parseFlagDuration. destruct (negb (str =? "")%string).
  - apply parseDuration_in_range.
  - intros H. injection H as <-. apply in_range_0.
Qed.

(** What a successful [parseBounds] says of its results. *)
Lemma parseBounds_inv (v : flag.vars) (rangeVal minVal maxVal : Z) :
  parseBounds v = Ok (rangeVal, minVal, maxVal) ->
  parseFlagDuration v.(flag.rangeStr) = Ok rangeVal
  /\ parseFlagDuration v.(flag.minStr) = Ok minVal
  /\ parseFlagDuration v.(flag.maxStr) = Ok maxVal
  /\ (v.(flag.minStr) <> "" -> v.(flag.maxStr) <> "" -> minVal <= maxVal).
Proof.
  unfold parseBounds, bind.
  destruct (parseFlagDuration v.(flag.rangeStr)) as [rv | ]; [ | discriminate ].
  destruct (parseFlagDuration v.(flag.minStr)) as [mn | ]; [ | discriminate ].
  destruct (parseFlagDuration v.(flag.maxStr)) as [mx | ]; [ | discriminate ].
  destruct (negb (v.(flag.minStr) =? "")%string
            && negb (v.(flag.maxStr) =? "")%string && (mx <? mn)) eqn:E;
    [ discriminate | ].
  intros H. injection H as <- <- <-. repeat split.
  intros Hmin Hmax. rewrite (set_true _ Hmin), (set_true _ Hmax) in E.
  cbn [andb] in E. apply Z.ltb_ge in E. exact E.
Qed.

(** What a successful [preclamp] says of its results. *)
Lemma preclamp_inv (v : flag.vars) (pos : list string) (minVal maxVal : Z)
    (iv : Z * Z) :
  preclamp v pos = Ok (minVal, maxVal, iv) ->
  (List.length pos <= 2)%nat
  /\ checkConflicts v pos = Ok tt
  /\ exists rangeVal base hasBase,
       parseBounds v = Ok (rangeVal, minVal, maxVal)
       /\ parseBase pos = Ok (base, hasBase)
       /\ unclamped v pos rangeVal minVal maxVal base hasBase = Ok iv.
Proof.
  unfold preclamp, bind.
  destruct (2 <? List.length pos)%nat eqn:Hlen; [ discriminate | ].
  apply Nat.ltb_ge in Hlen.
  destruct (checkConflicts v pos) as [[] | ]; [ | discriminate ].
  destruct (parseBounds v) as [[[rv mn] mx] | ]; [ | discriminate ].
  destruct (parseBase pos) as [[base hasBase] | ]; [ | discriminate ].
  destruct (unclamped v pos rv mn mx base hasBase) as [iv' | ] eqn:Hu;
    [ | discriminate ].
  intros H. injection H as <- <- <-.
  split; [ exact Hlen | ]. split; [ reflexivity | ].
  exists rv, base, hasBase. repeat split. exact Hu.
Qed.

Lemma unclamped_in_range (v : flag.vars) (pos : list string)
    (rangeVal minVal maxVal base : Z) (hasBase : bool) (low high : Z) :
  Int64.in_range minVal -> Int64.in_range maxVal ->
  unclamped v pos rangeVal minVal maxVal base hasBase = Ok (low, high) ->
  Int64.in_range low /\ Int64.in_range high.
Proof.
  intros Hmin Hmax. unfold unclamped.
  destruct (negb (v.(flag.rangeStr) =? "")%string).
  - destruct (negb hasBase); [ discriminate | ].
    intros H. injection H as <- <-. split; apply wrap_in_range.
  - destruct hasBase.
    + unfold bind. destruct (jitterFraction v pos) as [fr | ]; [ | discriminate ].
      unfold percentInterval.
      match goal with |- (if ?b then _ else _) = _ -> _ => destruct b end;
        [ discriminate | ].
      match goal with |- (if ?b then _ else _) = _ -> _ => destruct b end;
        [ discriminate | ].
      intros H. injection H as <- <-. split; apply to_int64_in_range.
    + destruct (negb (v.(flag.minStr) =? "")%string
                && negb (v.(flag.maxStr) =? "")%string); [ | discriminate ].
      intros H. injection H as <- <-. split; assumption.
Qed.

Lemma resolve_in_range (v : flag.vars) (pos : list string) (low high : Z)
    (vb : bool) :
  resolve v pos = Ok (low, high, vb) ->
  Int64.in_range low /\ Int64.in_range high.
Proof.
  unfold resolve, bind.
  destruct (preclamp v pos) as [[[mn mx] [lo hi]] | ] eqn:Hp; [ | discriminate ].
  apply preclamp_inv in Hp as (_ & _ & rv & base & hasBase & Hb & _ & Hu).
  apply parseBounds_inv in Hb as (_ & Hmn & Hmx & _).
  apply parseFlagDuration_in_range in Hmn, Hmx.
  destruct (unclamped_in_range _ _ _ _ _ _ _ _ _ Hmn Hmx Hu) as [Hlo Hhi].
  unfold clamp.
  destruct (negb (v.(flag.minStr) =? "")%string);
    destruct (negb (v.(flag.maxStr) =? "")%string);
    match goal with |- (if ?b then _ else _) = _ -> _ => destruct b end;
    try discriminate;
    intros H; injection H as <- <- _;
    unfold Int64.in_range, Int64.MinInt64, Int64.MaxInt64 in *; lia.
Qed.

Lemma parseArgs_interval_range (args : list string) (low high : Z) (vb : bool) :
  parseArgs args = Ok (low, high, vb) ->
  0 <= low <= high /\ Int64.in_range low /\ Int64.in_range high.
Proof.
  unfold parseArgs, bind.
  destruct (flag.Parse flag.defaults args) as [[v pos] | ]; [ | discriminate ].
  intros H. split; [ exact (resolve_interval _ _ _ _ _ H) | ].
  exact (resolve_in_range _ _ _ _ _ H).
Qed.

(** A value returned by the sampler is [low] plus an offset of
    [[0, high - low]], floored at zero. *)
Lemma chooseSleepDuration_offset (low high : Z) (rnd : entropy) (k k' : nat)
    (d : Z) :
  Int64.in_range low -> Int64.in_range high -> low <= high ->
  chooseSleepDuration low high rnd k = (Ok d, k') ->
  exists offset, 0 <= offset <= high - low /\ d = Z.max (low + offset) 0.
Proof.
  intros Hl Hh Hle. unfold chooseSleepDuration.
  destruct (high =? low) eqn:Heq.
  - apply Z.eqb_eq in Heq. intros H. injection H as <- _.
    exists 0. split; [ lia | f_equal; lia ].
  - apply Z.eqb_neq in Heq.
    destruct (high <? low); [ discriminate | ].
    rewrite add_sub_wrap by assumption.
    destruct (high =? Int64.MaxInt64) eqn:Hmax.
    + apply Z.eqb_eq in Hmax. intros H. injection H as <- _.
      exists (high - low). unfold Int64.MaxInt64 in Hmax. lia.
    + apply Z.eqb_neq in Hmax.
      destruct (cryptoRandInt64 (Int64.add (Int64.sub high low) 1) rnd k)
        as [[offset | e] k''] eqn:Hdraw; [ | discriminate ].
      intros H. injection H as <- _.
      apply cryptoRandInt64_offset in Hdraw; [ | apply wrap_in_range ].
      destruct Hdraw as [Hn Hoff]. revert Hn Hoff.
      unfold Int64.add, Int64.sub.
      unfold Int64.in_range, Int64.MinInt64, Int64.MaxInt64 in *.
      assert (Hcases : high - low < 2 ^ 63 - 1 \/ high - low = 2 ^ 63 - 1
                       \/ 2 ^ 63 <= high - low) by lia.
      destruct Hcases as [Hs | [He | Hb]].
      * rewrite (wrap_small (high - low))
          by (unfold Int64.in_range, Int64.MinInt64, Int64.MaxInt64; lia).
        rewrite (wrap_small (high - low + 1))
          by (unfold Int64.in_range, Int64.MinInt64, Int64.MaxInt64; lia).
        intros Hn Hoff. exists offset.
        rewrite (wrap_small (low + offset))
          by (unfold Int64.in_range, Int64.MinInt64, Int64.MaxInt64; lia).
        split; [ lia | reflexivity ].
      * rewrite (wrap_small (high - low))
          by (unfold Int64.in_range, Int64.MinInt64, Int64.MaxInt64; lia).
        rewrite (wrap_above (high - low + 1)) by lia. lia.
      * rewrite (wrap_above (high - low)) by lia.
        rewrite (wrap_small (high - low - 2 ^ 64 + 1))
          by (unfold Int64.in_range, Int64.MinInt64, Int64.MaxInt64; lia).
        lia.
Qed.

(** ** main *)

(** X1. When the program sleeps, it sleeps for a Duration inside the interval
    that [parseArgs] resolved from its arguments, and never for a negative
    one; it exits with status 1 exactly when [parseArgs] or the sampler
    returns an error. *)
Theorem main_sleeps_within_interval (args : list string) (rnd : entropy) :
  (forall d logged, main args rnd = Sleep d logged ->
     exists low high verbose,
       parseArgs args = Ok (low, high, verbose)
       /\ 0 <= low <= d /\ d <= high)
  /\ (forall e, main args rnd = Exit1 e <->
        parseArgs args = Err e
        \/ exists low high verbose k,
             parseArgs args = Ok (low, high, verbose)
             /\ chooseSleepDuration low high rnd 0 = (Err e, k)).
Proof.
  unfold main. split.
  - intros d logged.
    destruct (parseArgs args) as [[[low high] vb] | ] eqn:Hp; [ | discriminate ].
    destruct (chooseSleepDuration low high rnd 0) as [[sv | ] k] eqn:Hc;
      [ | discriminate ].
    intros H. injection H as <- _.
    pose proof (parseArgs_interval_range args low high vb Hp) as [Hiv [Hl Hh]].
    exists low, high, vb. split; [ reflexivity | ].
    destruct (chooseSleepDuration_offset low high rnd 0 k sv Hl Hh ltac:(lia) Hc)
      as (offset & Hoff & ->).
    lia.
  - intros e.
    destruct (parseArgs args) as [[[low high] vb] | e0] eqn:Hp.
    + destruct (chooseSleepDuration low high rnd 0) as [[sv | e1] k] eqn:Hc.
      * split; [ discriminate | ].
        intros [H | (l & h & b & k' & H & Hc')]; [ discriminate | ].
        injection H as <- <- <-. rewrite Hc in Hc'. discriminate.
      * split.
        -- intros H. injection H as <-. right. now exists low, high, vb, k.
        -- intros [H | (l & h & b & k' & H & Hc')]; [ discriminate | ].
           injection H as <- <- <-. rewrite Hc in Hc'. now injection Hc' as <-.
    + split.
      * intros H. injection H as <-. now left.
      * intros [H | (l & h & b & k' & H & _)]; [ now injection H as <- | ].
        discriminate.
Qed.

(** X2. When the resolved interval is a single point, the program sleeps for
    exactly that Duration whatever the entropy source does: it is not read,
    so even a failing source cannot make the run fail. *)
Theorem main_point_interval (args : list string) (d : Z) (verbose : bool)
    (rnd : entropy) :
  parseArgs args = Ok (d, d, verbose) ->
  main args rnd
  = Sleep d (if verbose then Some (Duration.Round d time.Millisecond) else None).
Proof.
  intros Hp. unfold main. rewrite Hp.
  apply parseArgs_interval_range in Hp as [Hiv _].
  unfold chooseSleepDuration. rewrite Z.eqb_refl.
  replace (Z.max d 0) with d by lia. reflexivity.
Qed.

Lemma main_point_interval_witness :
  main ["-v"; "-j"; "0%"; "1.2345678s"] (fun _ => ReadError)
  = Sleep 1234567800 (Some 1235000000).
Proof.
  apply (main_point_interval ["-v"; "-j"; "0%"; "1.2345678s"]
           1234567800 true (fun _ => ReadError)).
  vm_compute; reflexivity.
Defined.

(** ** Flags and positionals *)

Lemma Parse_notFlag (v : flag.vars) (s : string) (rest : list string) :
  notFlag s = true -> flag.Parse v (s :: rest) = Ok (v, s :: rest).
Proof.
  destruct s as [ | c [ | c1 s]]; [ reflexivity | | ].
  - intros _. cbn [flag.Parse].
    destruct c as [[] [] [] [] [] [] [] []]; reflexivity.
  - cbn [notFlag]. intros H. apply negb_true_iff in H. cbn [flag.Parse].
    destruct c as [[] [] [] [] [] [] [] []]; try reflexivity.
    discriminate.
Qed.

(** X3. Flag parsing stops at the first token that is not a flag: everything
    from there on is positional.  So a flag written after the duration, as in
    [10s --jitter 20%] or [10s --range 2s], is not read as a flag: with two or
    more tokens after the first positional the arguments are rejected as "too
    many positional arguments", and a single one is taken for the positional
    jitter. *)
Theorem flags_after_positional (base : string) :
  notFlag base = true ->
  (forall rest, parseArgs (base :: rest) = resolve flag.defaults (base :: rest))
  /\ (forall a b rest,
        parseArgs (base :: a :: b :: rest) = Err ErrTooManyPositional)
  /\ (forall a, a <> "" ->
        parseArgs [base; a]
        = let* d := parseDuration base in
          let* fraction := parsePercent a in
          let* iv := percentInterval d fraction in
          let '(low, high) := (Z.max (fst iv) 0, Z.max (snd iv) 0) in
          if high <? low then Err ErrEmptyInterval else Ok (low, high, false)).
Proof.
  intros Hb.
  assert (Hparse : forall rest,
             parseArgs (base :: rest) = resolve flag.defaults (base :: rest))
    by (intros rest; unfold parseArgs; now rewrite Parse_notFlag).
  split; [ exact Hparse | ]. split.
  - intros a b rest. rewrite Hparse. reflexivity.
  - intros a Ha. rewrite Hparse.
    assert (Hconf : checkConflicts flag.defaults [base; a] = Ok tt)
      by (unfold checkConflicts; cbn; now rewrite !andb_false_r).
    assert (Hfrac : jitterFraction flag.defaults [base; a] = parsePercent a)
      by (unfold jitterFraction; cbn; now rewrite (set_true _ Ha)).
    unfold resolve, preclamp, bind. rewrite Hconf.
    change (2 <? List.length [base; a])%nat with false.
    change (parseBounds flag.defaults) with (@Ok (Z * Z * Z) (0, 0, 0)).
    change (parseBase [base; a])
      with (let* b := parseDuration base in Ok (b, true)).
    unfold bind. cbv beta iota.
    destruct (parseDuration base) as [d | e]; [ | reflexivity ].
    change (unclamped flag.defaults [base; a] 0 0 0 d true)
      with (let* fraction := jitterFraction flag.defaults [base; a] in
            percentInterval d fraction).
    rewrite Hfrac. unfold bind.
    destruct (parsePercent a) as [fraction | e]; [ | reflexivity ].
    destruct (percentInterval d fraction) as [[lo hi] | e]; reflexivity.
Qed.

Lemma flags_after_positional_witness :
  parseArgs ["10s"; "--jitter"; "20%"] = Err ErrTooManyPositional
  /\ parseArgs ["10s"; "-v"] = Err (ErrPercentSuffix "-v").
Proof.
  split.
  - apply (proj1 (proj2 (flags_after_positional "10s" eq_refl))).
  - refine (eq_trans
              (proj2 (proj2 (flags_after_positional "10s" eq_refl)) "-v" _) _).
    + discriminate.
    + vm_compute; reflexivity.
Defined.

(** ** Clamping *)

(** X4. The bounds are a safety net for every branch: in a resolved interval
    both ends are at least the [--min] value (and at least zero) and at most
    the [--max] value (or zero, when the maximum is negative). *)
Theorem resolve_respects_bounds (v : flag.vars) (pos : list string)
    (low high : Z) (verbose : bool) :
  resolve v pos = Ok (low, high, verbose) ->
  (forall minVal, v.(flag.minStr) <> "" ->
     parseDuration v.(flag.minStr) = Ok minVal -> Z.max minVal 0 <= low)
  /\ (forall maxVal, v.(flag.maxStr) <> "" ->
        parseDuration v.(flag.maxStr) = Ok maxVal -> high <= Z.max maxVal 0).
Proof.
  intros Hres. pose proof (resolve_interval _ _ _ _ _ Hres) as Hiv.
  revert Hres. unfold resolve, bind.
  destruct (preclamp v pos) as [[[mn mx] [lo hi]] | ] eqn:Hp; [ | discriminate ].
  apply preclamp_inv in Hp as (_ & _ & rv & base & hasBase & Hb & _ & _).
  apply parseBounds_inv in Hb as (_ & Hmn & Hmx & Hord).
  unfold parseFlagDuration in Hmn, Hmx. unfold clamp.
  split.
  - intros minVal Hset Hparse. revert Hres.
    rewrite (set_true _ Hset) in *. rewrite Hparse in Hmn.
    injection Hmn as ->.
    destruct (String.eqb_spec v.(flag.maxStr) "") as [Hm | Hm]; cbn [negb];
      match goal with |- (if ?b then _ else _) = _ -> _ => destruct b end;
      try discriminate; intros H; injection H as <- <- _;
      [ | specialize (Hord Hset Hm) ]; lia.
  - intros maxVal Hset Hparse. revert Hres.
    rewrite (set_true _ Hset) in *. rewrite Hparse in Hmx.
    injection Hmx as ->.
    destruct (negb (v.(flag.minStr) =? "")%string);
      match goal with |- (if ?b then _ else _) = _ -> _ => destruct b end;
      try discriminate; intros H; injection H as <- <- _; lia.
Qed.

Lemma resolve_respects_bounds_witness :
  resolve (flag.mkVars "" "" "9s" "11s" false) ["10s"]
  = Ok (9 * time.Second, 11 * time.Second, false)
  /\ Z.max (9 * time.Second) 0 <= 9 * time.Second
  /\ 11 * time.Second <= Z.max (11 * time.Second) 0.
Proof.
  assert (H : resolve (flag.mkVars "" "" "9s" "11s" false) ["10s"]
              = Ok (9 * time.Second, 11 * time.Second, false))
    by (vm_compute; reflexivity).
  split; [ exact H | ]. split.
  - apply (proj1 (resolve_respects_bounds _ _ _ _ _ H) (9 * time.Second)).
    + discriminate.
    + vm_compute; reflexivity.
  - apply (proj2 (resolve_respects_bounds _ _ _ _ _ H) (11 * time.Second)).
    + discriminate.
    + vm_compute; reflexivity.
Defined.

(** X5. Clamping keeps the order of the ends, so an interval that is ordered
    before clamping is never reported as empty: resolution succeeds with the
    clamped interval.  "Defined interval is empty after clamping" can only
    come from a branch that produced [high < low]. *)
Theorem ordered_interval_resolves (v : flag.vars) (pos : list string)
    (minVal maxVal low high : Z) :
  preclamp v pos = Ok (minVal, maxVal, (low, high)) ->
  low <= high ->
  exists low' high',
    clamp v minVal maxVal (low, high) = (low', high')
    /\ low' <= high'
    /\ resolve v pos = Ok (low', high', v.(flag.verbose)).
Proof.
  intros Hp Hle. unfold resolve, bind. rewrite Hp.
  destruct (clamp v minVal maxVal (low, high)) as [l h] eqn:Hc.
  assert (Hlh : l <= h).
  { revert Hc. unfold clamp.
    destruct (negb (v.(flag.minStr) =? "")%string);
      destruct (negb (v.(flag.maxStr) =? "")%string);
      intros H; injection H as <- <-; lia. }
  exists l, h. split; [ reflexivity | ]. split; [ exact Hlh | ].
  now replace (h <? l) with false by (symmetry; apply Z.ltb_ge; lia).
Qed.

Lemma ordered_interval_resolves_witness :
  exists low' high',
    clamp (flag.mkVars "" "" "12s" "" true) (12 * time.Second) 0
      (5 * time.Second, 15 * time.Second) = (low', high')
    /\ low' <= high'
    /\ resolve (flag.mkVars "" "" "12s" "" true) ["10s"]
       = Ok (low', high', true).
Proof.
  apply (ordered_interval_resolves (flag.mkVars "" "" "12s" "" true) ["10s"]
           (12 * time.Second) 0 (5 * time.Second) (15 * time.Second)).
  - vm_compute; reflexivity.
  - vm_compute; discriminate.
Defined.

(** ** Resolution without a base *)

Lemma checkConflicts_no_positional (v : flag.vars) :
  v.(flag.jitterStr) = "" \/ v.(flag.rangeStr) = "" ->
  checkConflicts v [] = Ok tt.
Proof.
  unfold checkConflicts. cbn [positionalJitterOf List.length Nat.eqb String.eqb negb andb].
  intros [H | H]; rewrite (set_false _ H); cbn [andb];
    [ reflexivity | now rewrite andb_false_r ].
Qed.

(** X6. With no positional and no range, [--min] and [--max] alone give the
    interval: its ends are the two bounds, floored at zero.  The value of
    [--jitter] plays no part in this branch: it is not even parsed. *)
Theorem bounds_only (v : flag.vars) (minVal maxVal : Z) :
  v.(flag.rangeStr) = "" ->
  v.(flag.minStr) <> "" -> v.(flag.maxStr) <> "" ->
  parseDuration v.(flag.minStr) = Ok minVal ->
  parseDuration v.(flag.maxStr) = Ok maxVal ->
  minVal <= maxVal ->
  resolve v [] = Ok (Z.max minVal 0, Z.max maxVal 0, v.(flag.verbose)).
Proof.
  intros Hr Hmin Hmax Hpmin Hpmax Hle.
  unfold resolve, preclamp, bind.
  change (2 <? List.length (@nil string))%nat with false.
  rewrite (checkConflicts_no_positional v (or_intror Hr)).
  unfold parseBounds, parseFlagDuration, bind.
  rewrite (set_false _ Hr), (set_true _ Hmin), (set_true _ Hmax), Hpmin, Hpmax.
  cbn [andb]. replace (maxVal <? minVal) with false
    by (symmetry; apply Z.ltb_ge; lia).
  unfold parseBase, bind. cbn [List.length Nat.eqb orb].
  unfold unclamped. rewrite (set_false _ Hr), (set_true _ Hmin), (set_true _ Hmax).
  cbn [negb andb]. unfold clamp. rewrite (set_true _ Hmin), (set_true _ Hmax).
  replace (Z.max minVal minVal) with minVal by lia.
  replace (Z.max maxVal minVal) with maxVal by lia.
  replace (Z.min minVal maxVal) with minVal by lia.
  replace (Z.min maxVal maxVal) with maxVal by lia.
  now replace (Z.max maxVal 0 <? Z.max minVal 0) with false
    by (symmetry; apply Z.ltb_ge; lia).
Qed.

Lemma bounds_only_witness :
  resolve (flag.mkVars "not a percent" "" "-5s" "15s" false) []
  = Ok (Z.max (- 5 * time.Second) 0, Z.max (15 * time.Second) 0, false).
Proof.
  apply (bounds_only (flag.mkVars "not a percent" "" "-5s" "15s" false)
           (- 5 * time.Second) (15 * time.Second)).
  - reflexivity.
  - discriminate.
  - discriminate.
  - vm_compute; reflexivity.
  - vm_compute; reflexivity.
  - vm_compute; discriminate.
Defined.

(** X7. Without a positional there is no base: a range then fails with
    "--range requires a base duration", and fewer than two bounds with
    "missing required duration", also when [--jitter] is given.  Both are
    reported only after the flag values have parsed. *)
Theorem no_base_errors (v : flag.vars) (bounds : Z * Z * Z) :
  parseBounds v = Ok bounds ->
  (v.(flag.rangeStr) <> "" -> v.(flag.jitterStr) = "" ->
   resolve v [] = Err ErrRangeRequiresBase)
  /\ (v.(flag.rangeStr) = "" ->
      v.(flag.minStr) = "" \/ v.(flag.maxStr) = "" ->
      resolve v [] = Err ErrMissingDuration).
Proof.
  intros Hb. destruct bounds as [[rv mn] mx].
  unfold resolve, preclamp, bind.
  change (2 <? List.length (@nil string))%nat with false.
  split.
  - intros Hr Hj. rewrite (checkConflicts_no_positional v (or_introl Hj)), Hb.
    unfold parseBase, bind. cbn [List.length Nat.eqb orb].
    unfold unclamped. now rewrite (set_true _ Hr).
  - intros Hr Hm. rewrite (checkConflicts_no_positional v (or_intror Hr)), Hb.
    unfold parseBase, bind. cbn [List.length Nat.eqb orb].
    unfold unclamped. rewrite (set_false _ Hr).
    destruct Hm as [Hm | Hm]; rewrite (set_false _ Hm);
      [ reflexivity | now rewrite andb_false_r ].
Qed.

Lemma no_base_errors_witness :
  resolve (flag.mkVars "" "2s" "" "" false) [] = Err ErrRangeRequiresBase
  /\ resolve (flag.mkVars "20%" "" "5s" "" false) [] = Err ErrMissingDuration.
Proof.
  split.
  - apply (proj1 (no_base_errors (flag.mkVars "" "2s" "" "" false)
                    (2 * time.Second, 0, 0) ltac:(vm_compute; reflexivity)));
      [ discriminate | reflexivity ].
  - apply (proj2 (no_base_errors (flag.mkVars "20%" "" "5s" "" false)
                    (0, 5 * time.Second, 0) ltac:(vm_compute; reflexivity)));
      [ reflexivity | right; reflexivity ].
Defined.

(** ** The absolute range *)

(** X8. When neither [base - range] nor [base + range] leaves the 64-bit
    range, and no bound is set, a base with a non-negative [--range] resolves
    to exactly [(base - range, base + range)], each end floored at zero. *)
Theorem range_branch_exact (v : flag.vars) (tok : string) (base rangeVal : Z) :
  v.(flag.rangeStr) <> "" -> v.(flag.jitterStr) = "" ->
  v.(flag.minStr) = "" -> v.(flag.maxStr) = "" ->
  parseDuration v.(flag.rangeStr) = Ok rangeVal ->
  parseDuration tok = Ok base ->
  0 <= rangeVal ->
  Int64.in_range (base - rangeVal) -> Int64.in_range (base + rangeVal) ->
  resolve v [tok]
  = Ok (Z.max (base - rangeVal) 0, Z.max (base + rangeVal) 0, v.(flag.verbose)).
Proof.
  intros Hr Hj Hmin Hmax Hprange Hpbase Hnn Hlo Hhi.
  unfold resolve, preclamp, bind.
  change (2 <? List.length [tok])%nat with false.
  assert (Hconf : checkConflicts v [tok] = Ok tt)
    by (unfold checkConflicts; cbn [positionalJitterOf List.length Nat.eqb];
        rewrite (set_false _ Hj); reflexivity).
  rewrite Hconf.
  unfold parseBounds, parseFlagDuration, bind.
  rewrite (set_true _ Hr), (set_false _ Hmin), (set_false _ Hmax), Hprange.
  cbn [andb]. unfold parseBase, bind. cbn [List.length Nat.eqb orb nth].
  rewrite Hpbase. unfold unclamped. rewrite (set_true _ Hr). cbn [negb].
  unfold Int64.sub, Int64.add. rewrite !wrap_small by assumption.
  unfold clamp. rewrite (set_false _ Hmin), (set_false _ Hmax).
  now replace (Z.max (base + rangeVal) 0 <? Z.max (base - rangeVal) 0)
    with false by (symmetry; apply Z.ltb_ge; lia).
Qed.

Lemma range_branch_exact_witness :
  resolve (flag.mkVars "" "15s" "" "" false) ["10s"]
  = Ok (Z.max (10 * time.Second - 15 * time.Second) 0,
        Z.max (10 * time.Second + 15 * time.Second) 0, false).
Proof.
  apply (range_branch_exact (flag.mkVars "" "15s" "" "" false) "10s"
           (10 * time.Second) (15 * time.Second)).
  - discriminate.
  - reflexivity.
  - reflexivity.
  - reflexivity.
  - vm_compute; reflexivity.
  - vm_compute; reflexivity.
  - vm_compute; discriminate.
  - unfold Int64.in_range, Int64.MinInt64, Int64.MaxInt64, time.Second,
      time.Millisecond, time.Microsecond, time.Nanosecond; lia.
  - unfold Int64.in_range, Int64.MinInt64, Int64.MaxInt64, time.Second,
      time.Millisecond, time.Microsecond, time.Nanosecond; lia.
Defined.

(** ** The rejection loop *)

(** X9. [cryptoRandInt64] returns the first source value below the threshold,
    reduced modulo [n]: if the first [i < 1000] reads are rejected and the next
    one is accepted with value [v], the result is [v mod n] after [i + 1]
    reads. *)
Theorem cryptoRandInt64_first_accepted (n : Z) (rnd : entropy) (k i : nat)
    (bytes : list Byte.byte) :
  0 < n <= Int64.MaxInt64 -> (i < 1000)%nat ->
  rejects n rnd k i ->
  rnd (k + i)%nat = ReadOk bytes -> List.length bytes = 8%nat ->
  binary.LittleEndianUint64 bytes < limit n ->
  cryptoRandInt64 n rnd k
  = (Ok (binary.LittleEndianUint64 bytes mod n), S (k + i)).
Proof. apply drawLoop_first_accepted. Qed.

Lemma cryptoRandInt64_first_accepted_witness :
  cryptoRandInt64 10
    (fun k => match k with
              | O => ReadOk (repeat Byte.xff 8)
              | _ => ReadOk [Byte.x25; Byte.x00; Byte.x00; Byte.x00;
                             Byte.x00; Byte.x00; Byte.x00; Byte.x00]
              end) 0
  = (Ok (37 mod 10), 2%nat).
Proof.
  apply (cryptoRandInt64_first_accepted 10 _ 0 1
           [Byte.x25; Byte.x00; Byte.x00; Byte.x00;
            Byte.x00; Byte.x00; Byte.x00; Byte.x00]).
  - unfold Int64.MaxInt64; lia.
  - lia.
  - intros j Hj. exists (repeat Byte.xff 8).
    replace j with 0%nat by lia.
    split; [ reflexivity | ]. split; [ reflexivity | ].
    vm_compute; discriminate.
  - reflexivity.
  - reflexivity.
  - vm_compute; reflexivity.
Defined.

(** X10. The two ways the loop fails: after 1000 rejected reads it gives up
    with "random number generation failed after too many attempts", having
    read exactly 1000 times; and the first failing read, after [i < 1000]
    rejected ones, ends the loop at once with the read error. *)
Theorem cryptoRandInt64_failures (n : Z) (rnd : entropy) (k : nat) :
  0 < n ->
  (rejects n rnd k 1000 ->
   cryptoRandInt64 n rnd k = (Err ErrRandExhausted, (k + 1000)%nat))
  /\ (forall i, (i < 1000)%nat -> rejects n rnd k i ->
        rnd (k + i)%nat = ReadError ->
        cryptoRandInt64 n rnd k = (Err ErrRandRead, S (k + i))).
Proof.
  intros Hn. unfold cryptoRandInt64.
  replace (n <=? 0) with false by (symmetry; apply Z.leb_gt; lia).
  split.
  - intros Hrej.
    destruct (drawLoop_skip 1000 0 n rnd (repeat Byte.x00 8) k eq_refl Hrej)
      as (buf' & _ & E).
    rewrite Nat.add_0_r in E. rewrite E. reflexivity.
  - intros i Hi Hrej Hk.
    replace 1000%nat with (i + S (999 - i))%nat by lia.
    destruct (drawLoop_skip i (S (999 - i)) n rnd (repeat Byte.x00 8) k
                eq_refl Hrej) as (buf' & _ & ->).
    cbn [drawLoop]. now rewrite Hk.
Qed.

Lemma cryptoRandInt64_failures_witness :
  cryptoRandInt64 10 (fun _ => ReadOk (repeat Byte.xff 8)) 0
  = (Err ErrRandExhausted, 1000%nat).
Proof.
  apply (proj1 (cryptoRandInt64_failures 10
                  (fun _ => ReadOk (repeat Byte.xff 8)) 0 ltac:(lia))).
  intros j Hj. exists (repeat Byte.xff 8).
  split; [ reflexivity | ]. split; [ reflexivity | ].
  vm_compute; discriminate.
Defined.

Lemma drawLoop_reads (attempts : nat) (n : Z) (rnd : entropy)
    (buf : list Byte.byte) (k : nat) :
  (k <= snd (drawLoop attempts n rnd buf k) <= k + attempts)%nat.
Proof.
  revert buf k. induction attempts as [ | attempts IH]; intros buf k;
    cbn [drawLoop].
  - cbn [snd]. lia.
  - destruct (rnd k) as [bytes | ]; [ | cbn [snd]; lia ].
    destruct (binary.LittleEndianUint64 (fillBuf buf bytes) <? limit n);
      [ cbn [snd]; lia | ].
    specialize (IH (fillBuf buf bytes) (S k)). lia.
Qed.

(** X11. Whatever the entropy source does, one call of [cryptoRandInt64]
    reads it at most 1000 times, and a call with [n <= 0] fails with "n must
    be positive" without reading it. *)
Theorem cryptoRandInt64_reads (n : Z) (rnd : entropy) (k : nat) :
  (k <= snd (cryptoRandInt64 n rnd k) <= k + 1000)%nat
  /\ (n <= 0 -> cryptoRandInt64 n rnd k = (Err ErrNotPositive, k)).
Proof.
  unfold cryptoRandInt64. split.
  - destruct (n <=? 0); [ cbn [snd]; lia | apply drawLoop_reads ].
  - intros Hn. apply Z.leb_le in Hn. now rewrite Hn.
Qed.

(** X12. More than half of the 2^64 source values are accepted: the values
    rejected are at most [n], so the threshold is above 2^63 for every
    [n] that [cryptoRandInt64] can be given. *)
Theorem limit_above_half (n : Z) :
  0 < n <= Int64.MaxInt64 ->
  2 ^ 64 - limit n <= n /\ 2 ^ 63 < limit n.
Proof.
  intros Hn. rewrite limit_eq by assumption.
  unfold Int64.MaxInt64 in Hn.
  pose proof (Z.mod_pos_bound Uint64.MaxUint64 n ltac:(lia)) as Hm.
  unfold Uint64.MaxUint64 in *. lia.
Qed.

Lemma limit_above_half_witness :
  2 ^ 64 - limit 10000000001 <= 10000000001 /\ 2 ^ 63 < limit 10000000001.
Proof.
  apply (limit_above_half 10000000001). unfold Int64.MaxInt64. lia.
Defined.

(** ** The sampler on an interval *)

(** X13. When [high] is the largest Duration the sampler draws nothing: it
    returns [high] itself for every [low], without reading the entropy
    source. *)
Theorem chooseSleepDuration_at_max (low : Z) (rnd : entropy) (k : nat) :
  Int64.in_range low ->
  chooseSleepDuration low Int64.MaxInt64 rnd k = (Ok Int64.MaxInt64, k).
Proof.
  intros Hl. unfold chooseSleepDuration.
  assert (Hmax : Int64.in_range Int64.MaxInt64)
    by (unfold Int64.in_range, Int64.MinInt64, Int64.MaxInt64; lia).
  destruct (Int64.MaxInt64 =? low) eqn:Heq.
  - apply Z.eqb_eq in Heq. subst low. reflexivity.
  - replace (Int64.MaxInt64 <? low) with false
      by (symmetry; apply Z.ltb_ge; apply Hl).
    rewrite add_sub_wrap by (try assumption; apply Hl).
    now rewrite Z.eqb_refl.
Qed.

Lemma chooseSleepDuration_at_max_witness :
  chooseSleepDuration 0 Int64.MaxInt64 (fun _ => ReadError) 0
  = (Ok Int64.MaxInt64, 0%nat).
Proof.
  apply (chooseSleepDuration_at_max 0 (fun _ => ReadError) 0).
  unfold Int64.in_range, Int64.MinInt64, Int64.MaxInt64. lia.
Defined.

(** X14. On an interval [low < high] below the largest Duration and less than
    2^63 - 1 wide, the sampler returns [low] plus the first accepted source
    value reduced modulo [high - low + 1], floored at zero. *)
Theorem chooseSleepDuration_draw (low high : Z) (rnd : entropy) (k i : nat)
    (bytes : list Byte.byte) :
  Int64.in_range low -> Int64.in_range high ->
  low < high -> high < Int64.MaxInt64 -> high - low < Int64.MaxInt64 ->
  (i < 1000)%nat -> rejects (high - low + 1) rnd k i ->
  rnd (k + i)%nat = ReadOk bytes -> List.length bytes = 8%nat ->
  binary.LittleEndianUint64 bytes < limit (high - low + 1) ->
  chooseSleepDuration low high rnd k
  = (Ok (Z.max (low + binary.LittleEndianUint64 bytes mod (high - low + 1)) 0),
     S (k + i)).
Proof.
  intros Hl Hh Hlt Hmax Hw Hi Hrej Hk Hlen Hv. unfold chooseSleepDuration.
  replace (high =? low) with false by (symmetry; apply Z.eqb_neq; lia).
  replace (high <? low) with false by (symmetry; apply Z.ltb_ge; lia).
  rewrite add_sub_wrap by (try assumption; lia).
  replace (high =? Int64.MaxInt64) with false
    by (symmetry; apply Z.eqb_neq; lia).
  unfold Int64.sub, Int64.add.
  unfold Int64.in_range, Int64.MinInt64, Int64.MaxInt64 in *.
  rewrite (wrap_small (high - low))
    by (unfold Int64.in_range, Int64.MinInt64, Int64.MaxInt64; lia).
  rewrite (wrap_small (high - low + 1))
    by (unfold Int64.in_range, Int64.MinInt64, Int64.MaxInt64; lia).
  rewrite (drawLoop_first_accepted (high - low + 1) rnd k i bytes)
    by (try assumption; unfold Int64.MaxInt64; lia).
  pose proof (Z.mod_pos_bound (binary.LittleEndianUint64 bytes)
                (high - low + 1) ltac:(lia)).
  rewrite wrap_small
    by (unfold Int64.in_range, Int64.MinInt64, Int64.MaxInt64; lia).
  reflexivity.
Qed.

Lemma chooseSleepDuration_draw_witness :
  chooseSleepDuration 5 15
    (fun _ => ReadOk [Byte.x25; Byte.x00; Byte.x00; Byte.x00;
                      Byte.x00; Byte.x00; Byte.x00; Byte.x00]) 0
  = (Ok (Z.max (5 + 37 mod (15 - 5 + 1)) 0), 1%nat).
Proof.
  apply (chooseSleepDuration_draw 5 15 _ 0 0
           [Byte.x25; Byte.x00; Byte.x00; Byte.x00;
            Byte.x00; Byte.x00; Byte.x00; Byte.x00]).
  - unfold Int64.in_range, Int64.MinInt64, Int64.MaxInt64; lia.
  - unfold Int64.in_range, Int64.MinInt64, Int64.MaxInt64; lia.
  - lia.
  - unfold Int64.MaxInt64; lia.
  - unfold Int64.MaxInt64; lia.
  - lia.
  - intros j Hj. lia.
  - reflexivity.
  - reflexivity.
  - vm_compute; reflexivity.
Defined.

Lemma drawLoop_errors (attempts : nat) (n : Z) (rnd : entropy)
    (buf : list Byte.byte) (k k' : nat) (e : error) :
  drawLoop attempts n rnd buf k = (Err e, k') ->
  e = ErrRandRead \/ e = ErrRandExhausted.
Proof.
  revert buf k. induction attempts as [ | attempts IH]; intros buf k;
    cbn [drawLoop].
  - intros H. injection H as <- _. now right.
  - destruct (rnd k) as [bytes | ]; [ | intros H; injection H as <- _; now left ].
    destruct (binary.LittleEndianUint64 (fillBuf buf bytes) <? limit n);
      [ discriminate | apply IH ].
Qed.

(** X15. On the intervals the resolver produces ([0 <= low <= high]), below
    the largest Duration, the sampler can fail only through the entropy
    source: by a read error or by 1000 rejected reads.  "low must be less
    than or equal to high" and "n must be positive" do not occur. *)
Theorem chooseSleepDuration_errors (low high : Z) (rnd : entropy) (k k' : nat)
    (e : error) :
  0 <= low <= high -> high < Int64.MaxInt64 ->
  chooseSleepDuration low high rnd k = (Err e, k') ->
  e = ErrRandRead \/ e = ErrRandExhausted.
Proof.
  intros Hiv Hmax. unfold chooseSleepDuration.
  destruct (high =? low); [ discriminate | ].
  replace (high <? low) with false by (symmetry; apply Z.ltb_ge; lia).
  destruct (Int64.add low (Int64.sub high low) =? Int64.MaxInt64);
    [ discriminate | ].
  unfold Int64.sub, Int64.add. unfold Int64.MaxInt64 in Hmax.
  rewrite (wrap_small (high - low))
    by (unfold Int64.in_range, Int64.MinInt64, Int64.MaxInt64; lia).
  rewrite (wrap_small (high - low + 1))
    by (unfold Int64.in_range, Int64.MinInt64, Int64.MaxInt64; lia).
  unfold cryptoRandInt64.
  replace (high - low + 1 <=? 0) with false by (symmetry; apply Z.leb_gt; lia).
  destruct (drawLoop 1000 (high - low + 1) rnd (repeat Byte.x00 8) k)
    as [[offset | e0] k0] eqn:Hd; [ discriminate | ].
  intros H. injection H as <- _. exact (drawLoop_errors _ _ _ _ _ _ _ Hd).
Qed.

Lemma chooseSleepDuration_errors_witness :
  ErrRandRead = ErrRandRead \/ ErrRandRead = ErrRandExhausted.
Proof.
  apply (chooseSleepDuration_errors 5 15 (fun _ => ReadError) 0 1 ErrRandRead).
  - lia.
  - unfold Int64.MaxInt64; lia.
  - vm_compute; reflexivity.
Defined.

(** ** More on parseDuration *)

(** X16. A token that ends in a digit is read as if [s] were appended to it:
    the unit of a trailing number is the second, also after other groups
    (["1m30"] is ["1m30s"]). *)
Theorem parseDuration_trailing_digit (s : string) :
  s <> "" -> isDecimal (lastByte s) = true ->
  parseDuration s = time.ParseDuration (s ++ "s")
  /\ parseDuration s = parseDuration (s ++ "s").
Proof.
  intros Hne Hd. destruct s as [ | c s]; [ contradiction | ].
  assert (E : parseDuration (String c s) = time.ParseDuration (String c s ++ "s")).
  { unfold parseDuration.
    replace (String c s =? "")%string with false by reflexivity.
    rewrite HasSuffix_byte, (digit_not _ "d" Hd eq_refl).
    unfold unicode.IsDigit. now rewrite Hd. }
  split; [ exact E | ]. rewrite E.
  unfold parseDuration.
  change (String c s ++ "s") with (String c (s ++ "s")).
  replace (String c (s ++ "s") =? "")%string with false by reflexivity.
  rewrite HasSuffix_byte.
  change (String c (s ++ "s")) with (String c s ++ "s").
  rewrite lastByte_append by discriminate. reflexivity.
Qed.

Lemma parseDuration_trailing_digit_witness :
  parseDuration "1m30" = time.ParseDuration "1m30s"
  /\ parseDuration "1m30" = parseDuration "1m30s".
Proof.
  apply (parseDuration_trailing_digit "1m30"); [ discriminate | reflexivity ].
Defined.

(** The original text is used by [parseLoop] only in its errors. *)
Lemma parseLoop_orig (fuel : nat) (orig orig' s : string) (d r : Z) :
  time.parseLoop fuel orig s d = Ok r -> time.parseLoop fuel orig' s d = Ok r.
Proof.
  revert s d. induction fuel as [ | fuel IH]; intros s d.
  - destruct s; [ exact (fun H => H) | discriminate ].
  - destruct s as [ | c s]; [ exact (fun H => H) | ].
    cbn [time.parseLoop].
    destruct (negb (Ascii.eqb c "." || isDecimal c)); [ discriminate | ].
    destruct (time.leadingInt 0 (String c s)) as [[v s1] | ]; [ | discriminate ].
    destruct (time.fractionPart s1) as [[[f scale] s2] post].
    destruct (negb (negb (length (String c s) =? length s1)%nat) && negb post);
      [ discriminate | ].
    destruct (time.unitPrefix s2) as [u s3].
    destruct (length u =? 0)%nat; [ discriminate | ].
    destruct (time.unitMap u) as [unit | ]; [ | discriminate ].
    repeat match goal with
           | |- (if ?b then Err _ else _) = _ -> _ =>
               destruct b; [ discriminate | ]
           end.
    apply IH.
Qed.

(** The sum computed by [parseLoop] is a [uint64] that is at most 2^63. *)
Lemma parseLoop_bound (fuel : nat) (orig s : string) (d r : Z) :
  0 <= d <= 2 ^ 63 ->
  time.parseLoop fuel orig s d = Ok r -> 0 <= r <= 2 ^ 63.
Proof.
  revert s d. induction fuel as [ | fuel IH]; intros s d Hd.
  - destruct s; [ | discriminate ]. intros H. injection H as <-. exact Hd.
  - destruct s as [ | c s]; [ intros H; injection H as <-; exact Hd | ].
    cbn [time.parseLoop].
    destruct (negb (Ascii.eqb c "." || isDecimal c)); [ discriminate | ].
    destruct (time.leadingInt 0 (String c s)) as [[v s1] | ]; [ | discriminate ].
    destruct (time.fractionPart s1) as [[[f scale] s2] post].
    destruct (negb (negb (length (String c s) =? length s1)%nat) && negb post);
      [ discriminate | ].
    destruct (time.unitPrefix s2) as [u s3].
    destruct (length u =? 0)%nat; [ discriminate | ].
    destruct (time.unitMap u) as [unit | ]; [ | discriminate ].
    destruct (2 ^ 63 / unit <? v); [ discriminate | ].
    match goal with
    | |- (if ?b then Err _ else _) = _ -> _ => destruct b; [ discriminate | ]
    end.
    match goal with
    | |- (if 2 ^ 63 <? ?x then Err _ else _) = _ -> _ =>
        destruct (2 ^ 63 <? x) eqn:Hx; [ discriminate | ];
        apply IH; apply Z.ltb_ge in Hx; split; [ | exact Hx ];
        unfold Uint64.add, Uint64.wrap; apply Z.mod_pos_bound; lia
    end.
Qed.

Lemma ParseDuration_negation (c : ascii) (s : string) (d : Z) :
  Ascii.eqb c "-" = false -> Ascii.eqb c "+" = false ->
  time.ParseDuration (String c s) = Ok d ->
  time.ParseDuration (String "-" (String c s)) = Ok (- d).
Proof.
  intros Hm Hp. unfold time.ParseDuration. rewrite Hm, Hp.
  cbn [Ascii.eqb Bool.eqb orb].
  destruct (String c s =? "0")%string;
    [ intros H; injection H as <-; reflexivity | ].
  replace (String c s =? "")%string with false by reflexivity.
  unfold bind.
  destruct (time.parseLoop (length (String c s)) (String c s) (String c s) 0)
    as [d0 | e] eqn:Hloop; [ | discriminate ].
  rewrite (parseLoop_orig _ _ (String "-" (String c s)) _ _ _ Hloop).
  apply parseLoop_bound in Hloop; [ | lia ].
  destruct (2 ^ 63 - 1 <? d0) eqn:Hd0; [ discriminate | ].
  apply Z.ltb_ge in Hd0. intros H. injection H as <-.
  assert (Hin : Int64.in_range d0)
    by (unfold Int64.in_range, Int64.MinInt64, Int64.MaxInt64; lia).
  unfold Int64.neg. rewrite (wrap_small d0) by exact Hin.
  rewrite wrap_small
    by (unfold Int64.in_range, Int64.MinInt64, Int64.MaxInt64; lia).
  reflexivity.
Qed.

(** X17. A token that is not in days may carry a minus sign: if an unsigned
    token is accepted with value [d], the token with ["-"] in front of it is
    accepted with value [-d]. *)
Theorem parseDuration_negation (c : ascii) (s : string) (d : Z) :
  Ascii.eqb c "-" = false -> Ascii.eqb c "+" = false ->
  strings.HasSuffix (String c s) "d" = false ->
  parseDuration (String c s) = Ok d ->
  parseDuration (String "-" (String c s)) = Ok (- d).
Proof.
  intros Hm Hp Hsuf. unfold parseDuration.
  replace (String c s =? "")%string with false by reflexivity.
  replace (String "-" (String c s) =? "")%string with false by reflexivity.
  rewrite Hsuf. rewrite HasSuffix_byte in *.
  change (lastByte (String "-" (String c s))) with (lastByte (String c s)).
  rewrite Hsuf.
  destruct (unicode.IsDigit (lastByte (String c s))).
  - change (String "-" (String c s) ++ "s")
      with (String "-" (String c (s ++ "s"))).
    change (String c s ++ "s") with (String c (s ++ "s")).
    now apply ParseDuration_negation.
  - now apply ParseDuration_negation.
Qed.

Lemma parseDuration_negation_witness :
  parseDuration "-1h30m" = Ok (- (90 * time.Minute)).
Proof.
  apply (parseDuration_negation "1" "h30m" (90 * time.Minute));
    vm_compute; reflexivity.
Defined.

(** ** The verbose line *)

Lemma Round_millisecond (d : Z) :
  0 <= d -> d + time.Millisecond <= Int64.MaxInt64 ->
  Duration.Round d time.Millisecond
  = time.Millisecond * ((d + 500000) / time.Millisecond).
Proof.
  change time.Millisecond with 1000000. unfold Int64.MaxInt64.
  intros Hd Hmax. unfold Duration.Round.
  change (1000000 <=? 0) with false. cbv beta iota.
  replace (d <? 0) with false by (symmetry; apply Z.ltb_ge; lia).
  rewrite Z.rem_mod_nonneg by lia.
  pose proof (Z.div_mod d 1000000 ltac:(lia)) as Hdm.
  pose proof (Z.mod_pos_bound d 1000000 ltac:(lia)) as Hr.
  set (q := d / 1000000) in *. set (r := d mod 1000000) in *.
  assert (Hq : 0 <= q) by (apply Z.div_pos; lia).
  unfold Duration.lessThanHalf, Uint64.add.
  rewrite !uwrap_small
    by (rewrite ?uwrap_small by (unfold Uint64.MaxUint64; lia);
        unfold Uint64.MaxUint64; lia).
  destruct (r + r <? 1000000) eqn:Hhalf.
  - apply Z.ltb_lt in Hhalf. unfold Int64.sub.
    rewrite wrap_small
      by (unfold Int64.in_range, Int64.MinInt64, Int64.MaxInt64; lia).
    rewrite <- (Z.div_unique (d + 500000) 1000000 q (r + 500000)) by lia. lia.
  - apply Z.ltb_ge in Hhalf. unfold Int64.sub, Int64.add.
    rewrite (wrap_small (d + 1000000))
      by (unfold Int64.in_range, Int64.MinInt64, Int64.MaxInt64; lia).
    rewrite wrap_small
      by (unfold Int64.in_range, Int64.MinInt64, Int64.MaxInt64; lia).
    replace (d <? d + 1000000 - r) with true by (symmetry; apply Z.ltb_lt; lia).
    rewrite <- (Z.div_unique (d + 500000) 1000000 (q + 1) (r - 500000))
      by lia.
    lia.
Qed.

(** X18. The verbose line shows the Duration slept rounded to the nearest
    millisecond, halves upward: it is a whole number of milliseconds within
    half a millisecond of the sleep (for sleeps more than a millisecond below
    the largest Duration); without [-v] nothing is shown. *)
Theorem main_logged_duration (args : list string) (rnd : entropy) (d : Z)
    (logged : option Z) :
  main args rnd = Sleep d logged ->
  d + time.Millisecond <= Int64.MaxInt64 ->
  exists low high verbose,
    parseArgs args = Ok (low, high, verbose)
    /\ (verbose = false -> logged = None)
    /\ (verbose = true ->
        exists x, logged = Some x
          /\ x = time.Millisecond * ((d + 500000) / time.Millisecond)
          /\ - 500000 < x - d <= 500000).
Proof.
  unfold main.
  destruct (parseArgs args) as [[[low high] vb] | ] eqn:Hp; [ | discriminate ].
  destruct (chooseSleepDuration low high rnd 0) as [[sv | ] k] eqn:Hc;
    [ | discriminate ].
  intros H Hmax. injection H as <- <-.
  pose proof (parseArgs_interval_range args low high vb Hp) as [Hiv [Hl Hh]].
  destruct (chooseSleepDuration_offset low high rnd 0 k sv Hl Hh ltac:(lia) Hc)
    as (offset & Hoff & Hsv).
  assert (Hnn : 0 <= sv) by lia.
  exists low, high, vb. split; [ reflexivity | ]. split.
  - now intros ->.
  - intros ->. eexists. split; [ reflexivity | ].
    rewrite (Round_millisecond sv Hnn Hmax). split; [ reflexivity | ].
    change time.Millisecond with 1000000.
    pose proof (Z.div_mod (sv + 500000) 1000000 ltac:(lia)).
    pose proof (Z.mod_pos_bound (sv + 500000) 1000000 ltac:(lia)). lia.
Qed.

Lemma main_logged_duration_witness :
  exists low high verbose,
    parseArgs ["-v"; "-j"; "0%"; "1.2345678s"] = Ok (low, high, verbose)
    /\ (verbose = false -> Some 1235000000 = None)
    /\ (verbose = true ->
        exists x, Some 1235000000 = Some x
          /\ x = time.Millisecond * ((1234567800 + 500000) / time.Millisecond)
          /\ - 500000 < x - 1234567800 <= 500000).
Proof.
  apply (main_logged_duration ["-v"; "-j"; "0%"; "1.2345678s"]
           (fun _ => ReadError) 1234567800 (Some 1235000000)).
  - vm_compute; reflexivity.
  - vm_compute; discriminate.
Defined.

(** ** More on the flags *)

(** X19. The short and the long spelling of a flag, with one dash or two, set
    the same variable, and a flag given twice keeps its last value:
    [-j 20% --jitter 30%] is [--jitter 30%]. *)
Theorem repeated_flag_last_wins (dash1 dash2 name1 name2 : string)
    (t : flag.target) (v : flag.vars) (a b : string) (rest : list string) :
  In dash1 ["-"; "--"] -> In dash2 ["-"; "--"] ->
  flag.formal name1 = Some t -> flag.formal name2 = Some t ->
  t <> flag.Verbose ->
  flag.Parse v ((dash1 ++ name1) :: a :: (dash2 ++ name2) :: b :: rest)
  = flag.Parse v ((dash2 ++ name2) :: b :: rest).
Proof.
  intros Hd1 Hd2 H1 H2 Ht.
  pose proof (formal_names name1 t H1 Ht) as Hin1.
  pose proof (formal_names name2 t H2 Ht) as Hin2.
  cbn [In] in Hd1, Hd2, Hin1, Hin2. destruct v as [j r mn mx vb].
  destruct Hd1 as [<- | [<- | []]]; destruct Hd2 as [<- | [<- | []]];
    repeat (destruct Hin1 as [<- | Hin1];
            [ cbn in H1; injection H1 as <-;
              repeat (destruct Hin2 as [<- | Hin2];
                      [ first [ discriminate H2 | reflexivity ] | ]);
              contradiction
            | ]);
    contradiction.
Qed.

Lemma repeated_flag_last_wins_witness :
  flag.Parse flag.defaults ["-j"; "20%"; "--jitter"; "30%"; "10s"]
  = flag.Parse flag.defaults ["--jitter"; "30%"; "10s"].
Proof.
  apply (repeated_flag_last_wins "-" "--" "j" "jitter" flag.Jitter
           flag.defaults "20%" "30%" ["10s"]).
  - simpl; tauto.
  - simpl; tauto.
  - reflexivity.
  - reflexivity.
  - discriminate.
Defined.



(** ** The source values *)

Lemma byte_to_N_inj (x y : Byte.byte) : Byte.to_N x = Byte.to_N y -> x = y.
Proof.
  intros H. pose proof (Byte.of_to_N x) as Hx. rewrite H, Byte.of_to_N in Hx.
  now injection Hx.
Qed.

(** X21. The eight bytes read from the source and the value drawn from them
    correspond one to one: the value lies in [[0, 2^64)], and two buffers of
    eight bytes with the same value are the same buffer.  So counting source
    values is counting buffers. *)
Theorem LittleEndianUint64_bijective (b : list Byte.byte) :
  List.length b = 8%nat ->
  0 <= binary.LittleEndianUint64 b < 2 ^ 64
  /\ (forall b', List.length b' = 8%nat ->
        binary.LittleEndianUint64 b' = binary.LittleEndianUint64 b -> b' = b).
Proof.
  assert (Hbound : forall l : list Byte.byte,
             0 <= binary.LittleEndianUint64 l < 256 ^ Z.of_nat (List.length l)).
  { induction l as [ | x l IH]; cbn [binary.LittleEndianUint64 List.length].
    - cbn. lia.
    - pose proof (Byte.to_N_bounded x) as Hx.
      rewrite Nat2Z.inj_succ, Z.pow_succ_r by lia. lia. }
  assert (Hinj : forall l l' : list Byte.byte,
             List.length l' = List.length l ->
             binary.LittleEndianUint64 l' = binary.LittleEndianUint64 l ->
             l' = l).
  { induction l as [ | x l IH]; intros [ | y l'] Hlen; try discriminate.
    - reflexivity.
    - cbn [binary.LittleEndianUint64 List.length] in *. intros E.
      pose proof (Byte.to_N_bounded x) as Hx.
      pose proof (Byte.to_N_bounded y) as Hy.
      assert (Hxy : Byte.to_N y = Byte.to_N x) by lia.
      rewrite (byte_to_N_inj _ _ Hxy) in *. f_equal.
      apply IH; [ congruence | lia ]. }
  intros Hlen. split.
  - specialize (Hbound b). rewrite Hlen in Hbound.
    change (256 ^ Z.of_nat 8) with (2 ^ 64) in Hbound. exact Hbound.
  - intros b' Hlen'. apply Hinj. congruence.
Qed.

Lemma LittleEndianUint64_bijective_witness :
  0 <= binary.LittleEndianUint64 (repeat Byte.xff 8) < 2 ^ 64.
Proof.
  apply (proj1 (LittleEndianUint64_bijective (repeat Byte.xff 8) eq_refl)).
Defined.

(** ** The syntax of durations *)








(** ** Decimal tokens *)




(** ** The tokens parseDuration accepts *)






